(** * Flora: the plant-identifier page (app/page.tsx)

    A shallow embedding of the [Home] component: its state, its event
    handlers ([handleFileChange], [handleImageSelection], [startCamera],
    [captureImage], [stopCameraStream], [identifyPlant]) and the
    response-normalisation steps ([String.prototype.replace] with the
    fence pattern, [trim], [JSON.parse]).

    JavaScript strings are sequences of UTF-16 code units; they are
    modelled as lists of [N]. *)

From Stdlib Require Import NArith List Bool String Ascii Lia Arith.
Import ListNotations.
Open Scope N_scope.

(** ** JavaScript strings *)

Definition jsstring := list N.

(** Code units of an ASCII literal of the source. *)
Definition js (s : string) : jsstring :=
  map N_of_ascii (list_ascii_of_string s).

Fixpoint starts_with (p s : jsstring) : bool :=
  match p, s with
  | [], _ => true
  | _ :: _, [] => false
  | a :: p', b :: s' => (a =? b) && starts_with p' s'
  end.

(** ** [responseText.replace(/```json\n?|\n?```/g, "")]

    The pattern has two alternatives, tried in order at every position:
    [```json] followed by an optional line feed (greedy), and an
    optional line feed followed by [```].  With the [g] flag the scan
    resumes right after each match; every match is replaced by the
    empty string. *)

Definition backtick : N := 96.
Definition LF : N := 10.

Definition fence : jsstring := [backtick; backtick; backtick].
Definition fence_json : jsstring := fence ++ js "json".

(** Length of the match of the pattern anchored at the head of [s]. *)
Definition match_fence (s : jsstring) : option nat :=
  if starts_with fence_json s then
    Some (if starts_with [LF] (skipn 7 s) then 8 else 7)%nat
  else if starts_with (LF :: fence) s then Some 4%nat
  else if starts_with fence s then Some 3%nat
  else None.

(** [skip] counts the code units of the current match that are still to
    be dropped. *)
Fixpoint replace_go (skip : nat) (s : jsstring) : jsstring :=
  match s with
  | [] => []
  | c :: r =>
      match skip with
      | S k => replace_go k r
      | O =>
          match match_fence s with
          | Some (S k) => replace_go k r
          | _ => c :: replace_go 0 r
          end
      end
  end.

Definition replace_fences (s : jsstring) : jsstring := replace_go 0 s.

(** ** [String.prototype.trim]

    Strips the ECMAScript WhiteSpace and LineTerminator code units from
    both ends. *)

Definition is_trim_space (c : N) : bool :=
  (c =? 9) || (c =? 10) || (c =? 11) || (c =? 12) || (c =? 13) ||
  (c =? 32) || (c =? 160) || (c =? 5760) ||
  ((8192 <=? c) && (c <=? 8202)) ||
  (c =? 8232) || (c =? 8233) || (c =? 8239) || (c =? 8287) ||
  (c =? 12288) || (c =? 65279).

Fixpoint trimStart (s : jsstring) : jsstring :=
  match s with
  | c :: r => if is_trim_space c then trimStart r else s
  | [] => []
  end.

Definition trimEnd (s : jsstring) : jsstring := rev (trimStart (rev s)).

Definition trim (s : jsstring) : jsstring := trimEnd (trimStart s).

(** The cleaning step of [identifyPlant]. *)
Definition cleanedResponse (responseText : jsstring) : jsstring :=
  trim (replace_fences responseText).

(** ** [JSON.parse]

    Values as [JSON.parse] builds them.  A number keeps the text of its
    token; an object keeps its properties in creation order, a repeated
    key overwriting the earlier value in place. *)

#[warnings="-register-all"]
Inductive json : Type :=
| JNull
| JBool (b : bool)
| JNumber (lexeme : jsstring)
| JString (s : jsstring)
| JArray (elems : list json)
| JObject (props : list (jsstring * json)).

Definition jsstring_eqb (a b : jsstring) : bool :=
  (List.length a =? List.length b)%nat && starts_with a b.

Fixpoint define_prop (k : jsstring) (v : json) (props : list (jsstring * json))
  : list (jsstring * json) :=
  match props with
  | [] => [(k, v)]
  | (k', v') :: rest =>
      if jsstring_eqb k k' then (k', v) :: rest
      else (k', v') :: define_prop k v rest
  end.

Fixpoint get_prop (k : jsstring) (props : list (jsstring * json)) : option json :=
  match props with
  | [] => None
  | (k', v) :: rest => if jsstring_eqb k k' then Some v else get_prop k rest
  end.

(** *** Tokens *)

Inductive token : Type :=
| TLBrace | TRBrace | TLBracket | TRBracket | TColon | TComma
| TTrue | TFalse | TNull
| TString (s : jsstring)
| TNumber (lexeme : jsstring).

Definition is_json_space (c : N) : bool :=
  (c =? 9) || (c =? 10) || (c =? 13) || (c =? 32).

Definition is_digit (c : N) : bool := (48 <=? c) && (c <=? 57).

Definition hex_value (c : N) : option N :=
  if is_digit c then Some (c - 48)
  else if (97 <=? c) && (c <=? 102) then Some (c - 87)
  else if (65 <=? c) && (c <=? 70) then Some (c - 55)
  else None.

Definition hex4 (a b c d : N) : option N :=
  match hex_value a, hex_value b, hex_value c, hex_value d with
  | Some x, Some y, Some z, Some w => Some (((x * 16 + y) * 16 + z) * 16 + w)
  | _, _, _, _ => None
  end.

(** The code unit denoted by a one-letter escape. *)
Definition escape (e : N) : option N :=
  if (e =? 34) || (e =? 92) || (e =? 47) then Some e
  else if e =? 98 then Some 8
  else if e =? 102 then Some 12
  else if e =? 110 then Some 10
  else if e =? 114 then Some 13
  else if e =? 116 then Some 9
  else None.

Definition cons_unit (u : N) (n : nat) (r : option (jsstring * nat))
  : option (jsstring * nat) :=
  match r with
  | Some (str, k) => Some (u :: str, (n + k)%nat)
  | None => None
  end.

(** Body of a string token, from just after the opening quote: the
    decoded code units and the number of source code units consumed,
    closing quote included. *)
Fixpoint lex_string (s : jsstring) : option (jsstring * nat) :=
  match s with
  | [] => None
  | c :: r =>
      if c =? 34 then Some ([], 1%nat)
      else if c =? 92 then
        match r with
        | [] => None
        | e :: r' =>
            if e =? 117 then
              match r' with
              | h1 :: h2 :: h3 :: h4 :: r'' =>
                  match hex4 h1 h2 h3 h4 with
                  | Some u => cons_unit u 6 (lex_string r'')
                  | None => None
                  end
              | _ => None
              end
            else
              match escape e with
              | Some u => cons_unit u 2 (lex_string r')
              | None => None
              end
        end
      else if c <? 32 then None
      else cons_unit c 1 (lex_string r)
  end.

Fixpoint digits_len (s : jsstring) : nat :=
  match s with
  | c :: r => if is_digit c then S (digits_len r) else O
  | [] => O
  end.

Definition lex_exp (n : nat) (s : jsstring) : option nat :=
  match s with
  | e :: r =>
      if (e =? 101) || (e =? 69) then
        let '(m, r1) :=
          match r with
          | sg :: r' => if (sg =? 43) || (sg =? 45) then (1%nat, r') else (O, r)
          | [] => (O, r)
          end in
        match digits_len r1 with
        | O => None
        | S k => Some (n + 1 + m + S k)%nat
        end
      else Some n
  | [] => Some n
  end.

Definition lex_frac (n : nat) (s : jsstring) : option nat :=
  match s with
  | c :: r =>
      if c =? 46 then
        match digits_len r with
        | O => None
        | S k => lex_exp (n + 1 + S k) (skipn (S k) r)
        end
      else lex_exp n s
  | [] => Some n
  end.

(** Length of the number token at the head of [s]. *)
Definition lex_number (s : jsstring) : option nat :=
  let '(n0, s0) :=
    match s with
    | c :: r => if c =? 45 then (1%nat, r) else (O, s)
    | [] => (O, s)
    end in
  match s0 with
  | d :: r0 =>
      if d =? 48 then lex_frac (n0 + 1) r0
      else if is_digit d then
        let k := digits_len r0 in lex_frac (n0 + 1 + k) (skipn k r0)
      else None
  | [] => None
  end.

Definition cons_token (t : token) (r : option (list token)) : option (list token) :=
  match r with
  | Some ts => Some (t :: ts)
  | None => None
  end.

(** The token at the head of [s], with its length in code units. *)
Definition lex_token (s : jsstring) : option (token * nat) :=
  match s with
  | [] => None
  | c :: r =>
      if c =? 123 then Some (TLBrace, 1%nat)
      else if c =? 125 then Some (TRBrace, 1%nat)
      else if c =? 91 then Some (TLBracket, 1%nat)
      else if c =? 93 then Some (TRBracket, 1%nat)
      else if c =? 58 then Some (TColon, 1%nat)
      else if c =? 44 then Some (TComma, 1%nat)
      else if c =? 34 then
        match lex_string r with
        | Some (str, k) => Some (TString str, S k)
        | None => None
        end
      else if starts_with (js "true") s then Some (TTrue, 4%nat)
      else if starts_with (js "false") s then Some (TFalse, 5%nat)
      else if starts_with (js "null") s then Some (TNull, 4%nat)
      else
        match lex_number s with
        | Some k => Some (TNumber (firstn k s), k)
        | None => None
        end
  end.

Fixpoint tokens_go (skip : nat) (s : jsstring) : option (list token) :=
  match s with
  | [] => Some []
  | c :: r =>
      match skip with
      | S k => tokens_go k r
      | O =>
          if is_json_space c then tokens_go 0 r
          else
            match lex_token s with
            | Some (t, S k) => cons_token t (tokens_go k r)
            | _ => None
            end
      end
  end.

Definition tokenize (s : jsstring) : option (list token) := tokens_go 0 s.

(** *** Values from tokens: a pushdown recogniser of the JSON grammar *)

(** An open container waiting for the value being read. *)
Inductive frame : Type :=
| InArray (done_rev : list json)
| InObject (props : list (jsstring * json)) (key : jsstring).

Inductive mode : Type :=
| WantValue
| WantValueOrClose
| WantKeyOrClose
| WantKey (props : list (jsstring * json))
| WantColon (props : list (jsstring * json)) (key : jsstring)
| AfterValue (v : json).

Definition start_value (t : token) (st : list frame) : option (mode * list frame) :=
  match t with
  | TString s => Some (AfterValue (JString s), st)
  | TNumber l => Some (AfterValue (JNumber l), st)
  | TTrue => Some (AfterValue (JBool true), st)
  | TFalse => Some (AfterValue (JBool false), st)
  | TNull => Some (AfterValue JNull, st)
  | TLBracket => Some (WantValueOrClose, InArray [] :: st)
  | TLBrace => Some (WantKeyOrClose, st)
  | _ => None
  end.

Definition parse_step (m : mode) (st : list frame) (t : token)
  : option (mode * list frame) :=
  match m with
  | WantValue => start_value t st
  | WantValueOrClose =>
      match t, st with
      | TRBracket, InArray acc :: st' => Some (AfterValue (JArray (rev acc)), st')
      | _, _ => start_value t st
      end
  | WantKeyOrClose =>
      match t with
      | TRBrace => Some (AfterValue (JObject []), st)
      | TString k => Some (WantColon [] k, st)
      | _ => None
      end
  | WantKey props =>
      match t with
      | TString k => Some (WantColon props k, st)
      | _ => None
      end
  | WantColon props k =>
      match t with
      | TColon => Some (WantValue, InObject props k :: st)
      | _ => None
      end
  | AfterValue v =>
      match st, t with
      | InArray acc :: st', TComma => Some (WantValue, InArray (v :: acc) :: st')
      | InArray acc :: st', TRBracket => Some (AfterValue (JArray (rev (v :: acc))), st')
      | InObject props k :: st', TComma => Some (WantKey (define_prop k v props), st')
      | InObject props k :: st', TRBrace =>
          Some (AfterValue (JObject (define_prop k v props)), st')
      | _, _ => None
      end
  end.

Fixpoint parse_tokens (m : mode) (st : list frame) (ts : list token) : option json :=
  match ts with
  | [] =>
      match m, st with
      | AfterValue v, [] => Some v
      | _, _ => None
      end
  | t :: ts' =>
      match parse_step m st t with
      | Some (m', st') => parse_tokens m' st' ts'
      | None => None
      end
  end.

(** [JSON.parse text]: [None] stands for the SyntaxError it throws. *)
Definition JSON_parse (text : jsstring) : option json :=
  match tokenize text with
  | Some ts => parse_tokens WantValue [] ts
  | None => None
  end.

(** JSON text of the examples, written with ['] for the double quote. *)
Definition dq (s : string) : jsstring :=
  map (fun c => if c =? 39 then 34 else c) (js s).

(** ** The [PlantInfo] type

    [type PlantInfo = { name; scientificName; family; origin;
    characteristics; uses }], all of type [string]. *)

Definition PlantInfo_keys : list jsstring :=
  [js "name"; js "scientificName"; js "family"; js "origin";
   js "characteristics"; js "uses"].

(** [v.k]: [None] is [undefined]. *)
Definition field (k : jsstring) (v : json) : option json :=
  match v with
  | JObject props => get_prop k props
  | _ => None
  end.

Definition is_string_field (k : jsstring) (v : json) : bool :=
  match field k v with
  | Some (JString _) => true
  | _ => false
  end.

(** [v] has the shape the type [PlantInfo] declares. *)
Definition is_PlantInfo (v : json) : bool :=
  forallb (fun k => is_string_field k v) PlantInfo_keys.

(** ** Files, blobs and media streams *)

Record File : Type := mkFile {
  fname : string;
  ftype : string;
  fbytes : list N
}.

Record Blob : Type := mkBlob {
  btype : string;
  bbytes : list N
}.

(** [new File([blob], name, { type })] *)
Definition new_File (b : Blob) (name type : string) : File :=
  {| fname := name; ftype := type; fbytes := bbytes b |}.

(** A track's [readyState] is "live" until [stop()] ends it. *)
Record MediaStreamTrack : Type := mkTrack {
  kind : string;
  live : bool
}.

Definition MediaStream := list MediaStreamTrack.

Definition stop (t : MediaStreamTrack) : MediaStreamTrack :=
  {| kind := kind t; live := false |}.

(** The [<video>] element behind [videoRef]; [srcObject] refers to a
    stream by its position among the streams handed out so far. *)
Record HTMLVideoElement : Type := mkVideo {
  srcObject : option nat
}.

(** ** Asynchronous operations in progress

    - [PreviewRead]: the [FileReader] of [handleImageSelection], whose
      [onload] sets the preview;
    - [IdentifyRead]: the [FileReader] of [identifyPlant], whose closure
      holds [file];
    - [GenerateContent]: the awaited [model.generateContent] call;
    - [GetUserMedia]: the awaited [getUserMedia] call;
    - [ToBlob]: [canvas.toBlob] before it calls back. *)

Inductive task : Type :=
| PreviewRead (f : File)
| IdentifyRead (f : File)
| GenerateContent (f : File) (base64Image : jsstring)
| GetUserMedia
| ToBlob.

(** ** The component and its surroundings

    [file], [preview], [plantInfo], [loading] and [showCamera] are the
    [useState] cells ([JNull] is [null]); [videoRef] is
    [videoRef.current]; [streams] are the media streams the device has
    handed out, [console] the [console.error] messages. *)

Record Home : Type := mkHome {
  file : option File;
  preview : option jsstring;
  plantInfo : json;
  loading : bool;
  showCamera : bool;
  videoRef : option HTMLVideoElement;
  streams : list MediaStream;
  pending : list task;
  console : list string
}.

Definition initial : Home :=
  {| file := None; preview := None; plantInfo := JNull; loading := false;
     showCamera := false; videoRef := None; streams := []; pending := [];
     console := [] |}.

Definition setFile (f : option File) (w : Home) : Home :=
  mkHome f (preview w) (plantInfo w) (loading w) (showCamera w)
         (videoRef w) (streams w) (pending w) (console w).

Definition setPreview (p : option jsstring) (w : Home) : Home :=
  mkHome (file w) p (plantInfo w) (loading w) (showCamera w)
         (videoRef w) (streams w) (pending w) (console w).

Definition setPlantInfo (v : json) (w : Home) : Home :=
  mkHome (file w) (preview w) v (loading w) (showCamera w)
         (videoRef w) (streams w) (pending w) (console w).

Definition setLoading (b : bool) (w : Home) : Home :=
  mkHome (file w) (preview w) (plantInfo w) b (showCamera w)
         (videoRef w) (streams w) (pending w) (console w).

Definition setShowCamera (b : bool) (w : Home) : Home :=
  mkHome (file w) (preview w) (plantInfo w) (loading w) b
         (videoRef w) (streams w) (pending w) (console w).

Definition with_videoRef (v : option HTMLVideoElement) (w : Home) : Home :=
  mkHome (file w) (preview w) (plantInfo w) (loading w) (showCamera w)
         v (streams w) (pending w) (console w).

Definition with_streams (ss : list MediaStream) (w : Home) : Home :=
  mkHome (file w) (preview w) (plantInfo w) (loading w) (showCamera w)
         (videoRef w) ss (pending w) (console w).

Definition with_pending (ts : list task) (w : Home) : Home :=
  mkHome (file w) (preview w) (plantInfo w) (loading w) (showCamera w)
         (videoRef w) (streams w) ts (console w).

Definition console_error (msg : string) (w : Home) : Home :=
  mkHome (file w) (preview w) (plantInfo w) (loading w) (showCamera w)
         (videoRef w) (streams w) (pending w) (console w ++ [msg]).

Definition start (t : task) (w : Home) : Home :=
  with_pending (pending w ++ [t]) w.

Fixpoint remove_at {A : Type} (i : nat) (l : list A) : list A :=
  match l, i with
  | [], _ => []
  | _ :: r, O => r
  | x :: r, S j => x :: remove_at j r
  end.

Definition finish (i : nat) (w : Home) : Home :=
  with_pending (remove_at i (pending w)) w.

Fixpoint update_at {A : Type} (i : nat) (g : A -> A) (l : list A) : list A :=
  match l, i with
  | [], _ => []
  | x :: r, O => g x :: r
  | x :: r, S j => x :: update_at j g r
  end.

(** ** The handlers *)

Definition handleImageSelection (selectedFile : File) (w : Home) : Home :=
  start (PreviewRead selectedFile) (setFile (Some selectedFile) w).

(** [files] is [e.target.files]: [null] or a list of files. *)
Definition handleFileChange (files : option (list File)) (w : Home) : Home :=
  match files with
  | Some (selectedFile :: _) => handleImageSelection selectedFile w
  | _ => w
  end.

(** [startCamera] up to its [await]; [mediaDevices] tells whether
    [navigator.mediaDevices.getUserMedia] exists. *)
Definition startCamera (mediaDevices : bool) (w : Home) : Home :=
  let w1 := setShowCamera true w in
  if mediaDevices then start GetUserMedia w1 else w1.

(** [startCamera] after the [await], the request granted: the device
    hands out a fresh stream of live tracks. *)
Definition startCamera_granted (kinds : list string) (w : Home) : Home :=
  let stream := List.length (streams w) in
  let w1 := with_streams (streams w ++ [map (fun k => mkTrack k true) kinds]) w in
  match videoRef w1 with
  | Some _ => with_videoRef (Some (mkVideo (Some stream))) w1
  | None => w1
  end.

(** [startCamera] after the [await], the request rejected. *)
Definition startCamera_rejected (w : Home) : Home :=
  console_error "Error accessing the camera" w.

Definition stopCameraStream (w : Home) : Home :=
  match videoRef w with
  | Some (mkVideo (Some stream)) =>
      with_streams (update_at stream (map stop) (streams w)) w
  | _ => w
  end.

(** [captureImage] up to the call of [toBlob]; [context2d] tells whether
    [getContext("2d")] returned a context.  [canvasRef.current] is the
    canvas the component always renders. *)
Definition captureImage (context2d : bool) (w : Home) : Home :=
  match videoRef w with
  | Some _ => if context2d then start ToBlob w else w
  | None => w
  end.

(** The callback given to [toBlob]. *)
Definition captureImage_callback (blob : option Blob) (w : Home) : Home :=
  match blob with
  | Some b =>
      let file := new_File b "captured_image.jpg" "image/jpeg" in
      stopCameraStream (setShowCamera false (handleImageSelection file w))
  | None => w
  end.

(** [identifyPlant] up to the end of its [try] statement; [throws] tells
    whether a call inside the [try] block throws. *)
Definition identifyPlant (throws : bool) (w : Home) : Home :=
  match file w with
  | None => w
  | Some f =>
      let w1 := setLoading true w in
      if throws then
        setLoading false
          (setPlantInfo JNull (console_error "Error identifying plant:" w1))
      else start (IdentifyRead f) w1
  end.

(** [reader.onload] of [identifyPlant], up to its [await]. *)
Definition identifyPlant_onload (f : File) (result : jsstring) (w : Home) : Home :=
  start (GenerateContent f result) w.

(** [reader.onload] of [identifyPlant] after the [await], the call
    resolved with [responseText]. *)
Definition identifyPlant_response (responseText : jsstring) (w : Home) : Home :=
  let w1 :=
    match JSON_parse (cleanedResponse responseText) with
    | Some parsedInfo => setPlantInfo parsedInfo w
    | None => setPlantInfo JNull (console_error "Error parsing plant info:" w)
    end in
  setLoading false w1.

(** ** Events

    Each event runs one handler or callback to completion; React then
    commits the batched state updates, mounting the [<video>] element
    when [showCamera] is set and dropping it otherwise. *)

Definition commit (w : Home) : Home :=
  if showCamera w then
    match videoRef w with
    | Some _ => w
    | None => with_videoRef (Some (mkVideo None)) w
    end
  else with_videoRef None w.

Inductive event : Type :=
| FileInputChange (files : option (list File))
| ClickOpenCamera (mediaDevices : bool)
| ClickCapture (context2d : bool)
| ClickIdentify (throws : bool)
| ReadLoaded (i : nat) (result : jsstring)
| ReadFailed (i : nat)
| MediaGranted (i : nat) (kinds : list string)
| MediaRejected (i : nat)
| InferenceResolved (i : nat) (responseText : jsstring)
| InferenceRejected (i : nat)
| BlobReady (i : nat) (blob : option Blob).

Definition is_some {A : Type} (o : option A) : bool :=
  match o with Some _ => true | None => false end.

(** The handler run by an event, [None] when the event cannot occur: the
    capture button is rendered only under [showCamera], the identify
    button only under [preview] and is disabled under [loading]; a
    completion needs its operation to be in progress.  A rejection of
    [generateContent] leaves the [async] callback as a rejected promise
    that nothing handles. *)
Definition handle (e : event) (w : Home) : option Home :=
  match e with
  | FileInputChange files => Some (handleFileChange files w)
  | ClickOpenCamera md => Some (startCamera md w)
  | ClickCapture ctx =>
      if showCamera w then Some (captureImage ctx w) else None
  | ClickIdentify throws =>
      if is_some (preview w) && negb (loading w)
      then Some (identifyPlant throws w) else None
  | ReadLoaded i result =>
      match nth_error (pending w) i with
      | Some (PreviewRead _) => Some (setPreview (Some result) (finish i w))
      | Some (IdentifyRead f) => Some (identifyPlant_onload f result (finish i w))
      | _ => None
      end
  | ReadFailed i =>
      match nth_error (pending w) i with
      | Some (PreviewRead _) | Some (IdentifyRead _) => Some (finish i w)
      | _ => None
      end
  | MediaGranted i kinds =>
      match nth_error (pending w) i with
      | Some GetUserMedia => Some (startCamera_granted kinds (finish i w))
      | _ => None
      end
  | MediaRejected i =>
      match nth_error (pending w) i with
      | Some GetUserMedia => Some (startCamera_rejected (finish i w))
      | _ => None
      end
  | InferenceResolved i responseText =>
      match nth_error (pending w) i with
      | Some (GenerateContent _ _) =>
          Some (identifyPlant_response responseText (finish i w))
      | _ => None
      end
  | InferenceRejected i =>
      match nth_error (pending w) i with
      | Some (GenerateContent _ _) => Some (finish i w)
      | _ => None
      end
  | BlobReady i blob =>
      match nth_error (pending w) i with
      | Some ToBlob => Some (captureImage_callback blob (finish i w))
      | _ => None
      end
  end.

Definition step (e : event) (w : Home) : option Home :=
  option_map commit (handle e w).

Fixpoint run (es : list event) (w : Home) : option Home :=
  match es with
  | [] => Some w
  | e :: es' =>
      match step e w with
      | Some w' => run es' w'
      | None => None
      end
  end.

(** A stream is open while one of its tracks is live. *)
Definition stream_open (s : MediaStream) : bool := existsb live s.

Definition open_sessions (w : Home) : nat :=
  List.length (filter stream_open (streams w)).

(** * Properties of the fence pattern *)

#[local] Arguments N.eqb : simpl never.
#[local] Arguments N.leb : simpl never.
#[local] Arguments N.ltb : simpl never.

Definition no_backtick (s : jsstring) : bool :=
  forallb (fun c => negb (c =? backtick)) s.

Fixpoint last_is_LF (s : jsstring) : bool :=
  match s with
  | [] => false
  | [c] => c =? LF
  | _ :: r => last_is_LF r
  end.

(** Some position of [s] starts a [```]. *)
Fixpoint has_fence (s : jsstring) : bool :=
  match s with
  | [] => false
  | _ :: r => starts_with fence s || has_fence r
  end.

(** What follows a [```]: the [json] tag and one line feed belong to
    the match when they are there. *)
Definition drop_LF (s : jsstring) : jsstring :=
  match s with
  | c :: r => if c =? LF then r else s
  | [] => []
  end.

Definition after_fence (post : jsstring) : jsstring :=
  if starts_with (js "json") post then drop_LF (skipn 4 post) else post.

Lemma replace_go_skipn (k : nat) (s : jsstring) :
  replace_go k s = replace_go 0 (skipn k s).
Proof.
  revert k; induction s as [|c r IH]; intros [|k]; simpl; auto.
Qed.

Lemma match_fence_pos (s : jsstring) (n : nat) :
  match_fence s = Some n -> (3 <= n)%nat.
Proof.
  unfold match_fence.
  repeat match goal with |- context [if ?b then _ else _] => destruct b end;
    intros H; inversion H; lia.
Qed.

Lemma replace_match (s : jsstring) (n : nat) :
  match_fence s = Some n -> replace_fences s = replace_fences (skipn n s).
Proof.
  intros H. pose proof (match_fence_pos _ _ H) as Hn.
  unfold replace_fences. destruct s as [|c r].
  - now rewrite skipn_nil.
  - simpl replace_go at 1. rewrite H. destruct n as [|k]; [lia|].
    now rewrite replace_go_skipn.
Qed.

Lemma replace_nomatch (c : N) (r : jsstring) :
  match_fence (c :: r) = None ->
  replace_fences (c :: r) = c :: replace_fences r.
Proof.
  intros H. unfold replace_fences. simpl replace_go at 1. now rewrite H.
Qed.

Lemma starts_with_app (p q s : jsstring) :
  starts_with (p ++ q) s = true -> starts_with p s = true.
Proof.
  revert s; induction p as [|a p IH]; intros [|b s]; simpl; auto; try discriminate.
  rewrite !andb_true_iff. intros [H1 H2]; split; auto.
Qed.

Lemma starts_with_fence_LF (t x : jsstring) :
  starts_with fence (t ++ LF :: x) = starts_with fence t.
Proof.
  destruct t as [|a [|b [|c t]]]; simpl; auto;
    change (backtick =? LF) with false;
    rewrite ?andb_false_r; reflexivity.
Qed.

Lemma match_fence_none (c : N) (r : jsstring) :
  starts_with fence (c :: r) = false ->
  (c =? LF) && starts_with fence r = false ->
  match_fence (c :: r) = None.
Proof.
  intros H1 H2. unfold match_fence.
  destruct (starts_with fence_json (c :: r)) eqn:E1.
  - apply (starts_with_app fence (js "json")) in E1. congruence.
  - change (starts_with (LF :: fence) (c :: r))
      with ((LF =? c) && starts_with fence r).
    rewrite N.eqb_sym, H2, H1. reflexivity.
Qed.

(** Text without backticks is copied; a line feed at its end is copied
    too unless a [```] follows it. *)
Lemma replace_prefix (pre s : jsstring) :
  no_backtick pre = true ->
  last_is_LF pre && starts_with fence s = false ->
  replace_fences (pre ++ s) = pre ++ replace_fences s.
Proof.
  induction pre as [|c pre IH]; intros Hb Hl; [reflexivity|].
  simpl in Hb. apply andb_true_iff in Hb as [Hc Hb].
  apply negb_true_iff in Hc.
  change ((c :: pre) ++ s) with (c :: (pre ++ s)).
  rewrite replace_nomatch.
  - simpl. f_equal. apply IH; auto.
    destruct pre; [reflexivity| exact Hl].
  - apply match_fence_none.
    + simpl. rewrite N.eqb_sym, Hc. reflexivity.
    + destruct pre as [|d pre].
      * simpl in Hl |- *. exact Hl.
      * simpl in Hb. apply andb_true_iff in Hb as [Hd _].
        apply negb_true_iff in Hd. simpl.
        rewrite (N.eqb_sym backtick d), Hd.
        now rewrite andb_false_r.
Qed.

Lemma replace_LF_fence (post : jsstring) :
  replace_fences (LF :: fence ++ post) = replace_fences post.
Proof. now rewrite (replace_match _ 4). Qed.

Lemma replace_fence (post : jsstring) :
  replace_fences (fence ++ post) = replace_fences (after_fence post).
Proof.
  unfold after_fence.
  destruct (starts_with (js "json") post) eqn:E.
  - destruct post as [|a [|b [|c [|d post]]]]; simpl in E;
      rewrite ?andb_false_r in E; try discriminate E.
    rewrite !andb_true_iff, !N.eqb_eq in E.
    destruct E as (<- & <- & <- & <- & _).
    destruct post as [|e post].
    + now rewrite (replace_match _ 7).
    + simpl drop_LF. destruct (e =? LF) eqn:El.
      * apply N.eqb_eq in El; subst e. now rewrite (replace_match _ 8).
      * rewrite (replace_match _ 7); [reflexivity|].
        unfold match_fence. simpl.
        rewrite (N.eqb_sym LF e), El. reflexivity.
  - rewrite (replace_match _ 3); [reflexivity|].
    unfold match_fence.
    change (starts_with fence_json (fence ++ post))
      with (starts_with (js "json") post).
    rewrite E. reflexivity.
Qed.

(** A text free of [```] and closed by a line feed and a fence comes
    out whole. *)
Lemma replace_body (t : jsstring) :
  has_fence t = false ->
  replace_fences (t ++ LF :: fence) = t.
Proof.
  induction t as [|c t IH]; intros H.
  - reflexivity.
  - simpl in H. apply orb_false_iff in H as [H1 H2].
    change ((c :: t) ++ LF :: fence) with (c :: (t ++ LF :: fence)).
    rewrite replace_nomatch.
    + f_equal. auto.
    + apply match_fence_none.
      * change (c :: t ++ LF :: fence) with ((c :: t) ++ LF :: fence).
        rewrite starts_with_fence_LF. exact H1.
      * rewrite starts_with_fence_LF.
        destruct t as [|d t]; [now rewrite andb_false_r|].
        simpl in H2. apply orb_false_iff in H2 as [H2 _].
        simpl. rewrite H2. now rewrite andb_false_r.
Qed.

(** * [trim] and the tokens of a JSON text

    [JSON.parse] skips the four JSON white-space characters around a
    value; [trim] strips a larger set.  On a text that parses, the two
    agree. *)

Ltac bool_to_prop :=
  repeat rewrite ?orb_true_iff, ?orb_false_iff, ?andb_true_iff, ?andb_false_iff,
    ?negb_true_iff, ?negb_false_iff, ?N.eqb_eq, ?N.eqb_neq, ?N.leb_le,
    ?N.leb_gt, ?N.ltb_lt, ?N.ltb_ge in *.

(** The code units a token can start with. *)
Definition token_start (c : N) : bool :=
  (c =? 123) || (c =? 125) || (c =? 91) || (c =? 93) || (c =? 58) ||
  (c =? 44) || (c =? 34) || (c =? 116) || (c =? 102) || (c =? 110) ||
  (c =? 45) || is_digit c.

Lemma starts_with_head (a : N) (p : jsstring) (c : N) (s : jsstring) :
  starts_with (a :: p) (c :: s) = true -> c = a.
Proof.
  simpl. rewrite andb_true_iff, N.eqb_eq. intros [H _]. now symmetry.
Qed.

Lemma lex_number_start (c : N) (s : jsstring) (k : nat) :
  lex_number (c :: s) = Some k -> c = 45 \/ is_digit c = true.
Proof.
  unfold lex_number. destruct (c =? 45) eqn:E.
  - apply N.eqb_eq in E. auto.
  - destruct (c =? 48) eqn:E0.
    + apply N.eqb_eq in E0; subst c. auto.
    + destruct (is_digit c); [auto | discriminate].
Qed.

Lemma lex_token_start (c : N) (s : jsstring) (t : token) (k : nat) :
  lex_token (c :: s) = Some (t, k) -> token_start c = true.
Proof.
  unfold lex_token, token_start.
  repeat match goal with
  | |- context [if ?x =? ?y then _ else _] =>
      destruct (x =? y) eqn:?; [intros _; rewrite ?orb_true_r; reflexivity|]
  end.
  destruct (starts_with (js "true") (c :: s)) eqn:Et.
  { apply starts_with_head in Et; subst c. reflexivity. }
  destruct (starts_with (js "false") (c :: s)) eqn:Ef.
  { apply starts_with_head in Ef; subst c. reflexivity. }
  destruct (starts_with (js "null") (c :: s)) eqn:En.
  { apply starts_with_head in En; subst c. reflexivity. }
  destruct (lex_number (c :: s)) eqn:El; [|discriminate].
  apply lex_number_start in El as [->| ->]; intros _;
    rewrite ?orb_true_r; reflexivity.
Qed.

Lemma trim_space_not_token_start (c : N) :
  is_trim_space c = true -> token_start c = false.
Proof.
  unfold is_trim_space, token_start, is_digit. intros H.
  bool_to_prop. lia.
Qed.

Lemma json_space_trim_space (c : N) :
  is_json_space c = true -> is_trim_space c = true.
Proof.
  unfold is_json_space, is_trim_space. intros H. bool_to_prop. lia.
Qed.

Lemma lex_token_trim_space (c : N) (s : jsstring) :
  is_trim_space c = true -> lex_token (c :: s) = None.
Proof.
  intros H. destruct (lex_token (c :: s)) as [[t k]|] eqn:E; [|reflexivity].
  apply lex_token_start in E. apply trim_space_not_token_start in H.
  congruence.
Qed.

Lemma trim_space_eqb (c k : N) :
  is_trim_space c = true -> 33 <= k < 160 -> (c =? k) = false.
Proof.
  unfold is_trim_space. intros H Hk. bool_to_prop. lia.
Qed.

Lemma trim_space_not_digit (c : N) :
  is_trim_space c = true -> is_digit c = false.
Proof.
  unfold is_trim_space, is_digit. intros H. bool_to_prop. lia.
Qed.

Lemma trim_space_not_hex (c : N) :
  is_trim_space c = true -> hex_value c = None.
Proof.
  intros H. unfold hex_value. rewrite (trim_space_not_digit c H).
  replace ((97 <=? c) && (c <=? 102)) with false.
  - replace ((65 <=? c) && (c <=? 70)) with false; [reflexivity|].
    symmetry. unfold is_trim_space in H. bool_to_prop. lia.
  - symmetry. unfold is_trim_space in H. bool_to_prop. lia.
Qed.

Lemma trim_space_not_escape (c : N) :
  is_trim_space c = true -> escape c = None.
Proof.
  intros H. unfold escape.
  now rewrite !(trim_space_eqb c _ H) by lia.
Qed.

Lemma jsstring_length_ind (P : jsstring -> Prop) :
  (forall s, (forall r, (List.length r < List.length s)%nat -> P r) -> P s) ->
  forall s, P s.
Proof.
  intros step s.
  assert (G : forall n r, (List.length r < n)%nat -> P r).
  { induction n as [|n IH]; intros r Hr; [lia|].
    apply step. intros r' Hr'. apply IH. lia. }
  apply (G (S (List.length s))). lia.
Qed.

Lemma hex4_last_none (a b c d : N) : hex_value d = None -> hex4 a b c d = None.
Proof.
  intros H. unfold hex4. rewrite H.
  destruct (hex_value a), (hex_value b), (hex_value c); reflexivity.
Qed.

(** A white-space character after the text changes nothing for a
    string token: an unfinished string stays unfinished. *)
Lemma lex_string_snoc (c : N) (s : jsstring) :
  is_trim_space c = true -> lex_string (s ++ [c]) = lex_string s.
Proof.
  intros H. induction s as [s IH] using jsstring_length_ind.
  assert (B : lex_string [c] = None).
  { simpl. rewrite !(trim_space_eqb c _ H) by lia.
    destruct (c <? 32); reflexivity. }
  destruct s as [|a r]; [exact B|].
  simpl app. simpl lex_string.
  destruct (a =? 34); [reflexivity|].
  destruct (a =? 92).
  - destruct r as [|e r'].
    + simpl. rewrite (trim_space_eqb c 117 H) by lia.
      now rewrite (trim_space_not_escape c H).
    + simpl app. cbv iota beta. destruct (e =? 117).
      * destruct r' as [|h1 [|h2 [|h3 [|h4 r'']]]]; simpl app; cbv iota beta;
          try reflexivity.
        -- now rewrite (hex4_last_none _ _ _ c (trim_space_not_hex c H)).
        -- rewrite IH by (simpl; lia). reflexivity.
      * rewrite IH by (simpl; lia). reflexivity.
  - rewrite IH by (simpl; lia). reflexivity.
Qed.

Lemma lex_string_length (s : jsstring) (str : jsstring) (k : nat) :
  lex_string s = Some (str, k) -> (1 <= k <= List.length s)%nat.
Proof.
  revert str k. induction s as [s IH] using jsstring_length_ind.
  intros str k. destruct s as [|a r]; [discriminate|].
  simpl lex_string.
  assert (C : forall u n r0 str k,
    (List.length r0 + n <= List.length (a :: r))%nat -> (1 <= n)%nat ->
    cons_unit u n (lex_string r0) = Some (str, k) ->
    (1 <= k <= List.length (a :: r))%nat).
  { intros u n r0 str0 k0 Hl Hn E.
    destruct (lex_string r0) as [[str1 k1]|] eqn:E1; [|discriminate].
    apply IH in E1; [|simpl in *; lia].
    simpl in E. inversion E; subst. lia. }
  destruct (a =? 34).
  { intros E; inversion E; subst. simpl; lia. }
  destruct (a =? 92).
  - destruct r as [|e r']; [discriminate|].
    destruct (e =? 117).
    + destruct r' as [|h1 [|h2 [|h3 [|h4 r'']]]]; try discriminate.
      destruct (hex4 h1 h2 h3 h4); [|discriminate].
      apply C; simpl; lia.
    + destruct (escape e); [|discriminate]. apply C; simpl; lia.
  - destruct (a <? 32); [discriminate|]. apply C; simpl; lia.
Qed.

Lemma digits_len_snoc (c : N) (s : jsstring) :
  is_digit c = false -> digits_len (s ++ [c]) = digits_len s.
Proof.
  intros H. induction s as [|a r IH]; simpl.
  - now rewrite H.
  - destruct (is_digit a); congruence.
Qed.

Lemma digits_len_le (s : jsstring) : (digits_len s <= List.length s)%nat.
Proof.
  induction s as [|a r IH]; simpl; [lia|]. destruct (is_digit a); lia.
Qed.

Lemma skipn_snoc (k : nat) (s : jsstring) (c : N) :
  (k <= List.length s)%nat -> skipn k (s ++ [c]) = skipn k s ++ [c].
Proof.
  intros H. rewrite skipn_app.
  replace (k - List.length s)%nat with O by lia. reflexivity.
Qed.

Lemma firstn_snoc (k : nat) (s : jsstring) (c : N) :
  (k <= List.length s)%nat -> firstn k (s ++ [c]) = firstn k s.
Proof.
  intros H. rewrite firstn_app.
  replace (k - List.length s)%nat with O by lia.
  simpl. now rewrite app_nil_r.
Qed.

Lemma lex_exp_snoc (c : N) (n : nat) (s : jsstring) :
  is_trim_space c = true -> lex_exp n (s ++ [c]) = lex_exp n s.
Proof.
  intros H. pose proof (trim_space_not_digit c H) as Hd.
  unfold lex_exp. destruct s as [|e r]; simpl app; cbv beta iota.
  - now rewrite !(trim_space_eqb c _ H) by lia.
  - destruct ((e =? 101) || (e =? 69)); [|reflexivity].
    destruct r as [|sg r']; simpl app; cbv beta iota.
    + rewrite !(trim_space_eqb c _ H) by lia. simpl. now rewrite Hd.
    + destruct ((sg =? 43) || (sg =? 45)).
      * now rewrite digits_len_snoc.
      * change (sg :: r' ++ [c]) with ((sg :: r') ++ [c]).
        now rewrite digits_len_snoc.
Qed.

Lemma lex_frac_snoc (c : N) (n : nat) (s : jsstring) :
  is_trim_space c = true -> lex_frac n (s ++ [c]) = lex_frac n s.
Proof.
  intros H. pose proof (trim_space_not_digit c H) as Hd.
  unfold lex_frac. destruct s as [|a r]; simpl app; cbv beta iota.
  - rewrite (trim_space_eqb c 46 H) by lia.
    change [c] with ([] ++ [c]). now rewrite lex_exp_snoc.
  - destruct (a =? 46).
    + rewrite digits_len_snoc by exact Hd.
      pose proof (digits_len_le r).
      destruct (digits_len r) as [|k] eqn:E; [reflexivity|].
      rewrite skipn_snoc by lia. now apply lex_exp_snoc.
    + change (a :: r ++ [c]) with ((a :: r) ++ [c]). now apply lex_exp_snoc.
Qed.

Lemma lex_number_snoc (c : N) (s : jsstring) :
  is_trim_space c = true -> lex_number (s ++ [c]) = lex_number s.
Proof.
  intros H. pose proof (trim_space_not_digit c H) as Hd.
  assert (G : forall n0 s0,
    match s0 ++ [c] with
    | d :: r0 =>
        if d =? 48 then lex_frac (n0 + 1) r0
        else if is_digit d then
          let k := digits_len r0 in lex_frac (n0 + 1 + k) (skipn k r0)
        else None
    | [] => None
    end =
    match s0 with
    | d :: r0 =>
        if d =? 48 then lex_frac (n0 + 1) r0
        else if is_digit d then
          let k := digits_len r0 in lex_frac (n0 + 1 + k) (skipn k r0)
        else None
    | [] => None
    end).
  { intros n0 [|d r0]; simpl app; cbv beta iota.
    - now rewrite (trim_space_eqb c 48 H), Hd by lia.
    - destruct (d =? 48); [now apply lex_frac_snoc|].
      destruct (is_digit d); [|reflexivity].
      cbv zeta. rewrite digits_len_snoc by exact Hd.
      rewrite skipn_snoc by apply digits_len_le.
      now apply lex_frac_snoc. }
  unfold lex_number. destruct s as [|a r]; simpl app; cbv beta iota.
  - rewrite (trim_space_eqb c 45 H) by lia. apply (G O []).
  - destruct (a =? 45).
    + apply G.
    + apply (G O (a :: r)).
Qed.

Lemma lex_exp_length (n : nat) (s : jsstring) (k : nat) :
  lex_exp n s = Some k -> (n <= k <= n + List.length s)%nat.
Proof.
  unfold lex_exp. destruct s as [|e r].
  - intros E; inversion E; simpl; lia.
  - destruct ((e =? 101) || (e =? 69)).
    + destruct r as [|sg r'].
      * simpl. discriminate.
      * destruct ((sg =? 43) || (sg =? 45)).
        -- pose proof (digits_len_le r').
           destruct (digits_len r'); [discriminate|].
           intros E; inversion E; simpl; lia.
        -- pose proof (digits_len_le (sg :: r')) as L.
           destruct (digits_len (sg :: r')); [discriminate|].
           intros E; inversion E; simpl in *; lia.
    + intros E; inversion E; simpl; lia.
Qed.

Lemma lex_frac_length (n : nat) (s : jsstring) (k : nat) :
  lex_frac n s = Some k -> (n <= k <= n + List.length s)%nat.
Proof.
  unfold lex_frac. destruct s as [|a r].
  - intros E; inversion E; simpl; lia.
  - destruct (a =? 46).
    + pose proof (digits_len_le r) as L.
      destruct (digits_len r) as [|d]; [discriminate|].
      intros E. apply lex_exp_length in E.
      rewrite length_skipn in E. simpl. lia.
    + apply lex_exp_length.
Qed.

Lemma lex_number_length (s : jsstring) (k : nat) :
  lex_number s = Some k -> (1 <= k <= List.length s)%nat.
Proof.
  assert (G : forall n0 s0 k0,
    match s0 with
    | d :: r0 =>
        if d =? 48 then lex_frac (n0 + 1) r0
        else if is_digit d then
          let k := digits_len r0 in lex_frac (n0 + 1 + k) (skipn k r0)
        else None
    | [] => None
    end = Some k0 -> (1 <= k0 <= n0 + List.length s0)%nat).
  { intros n0 [|d r0] k0; [discriminate|].
    destruct (d =? 48).
    - intros E. apply lex_frac_length in E. simpl; lia.
    - destruct (is_digit d); [|discriminate].
      cbv zeta. intros E. apply lex_frac_length in E.
      pose proof (digits_len_le r0). rewrite length_skipn in E.
      simpl; lia. }
  unfold lex_number. destruct s as [|a r].
  - apply (G O []).
  - destruct (a =? 45).
    + intros E. apply G in E. simpl; lia.
    + apply (G O (a :: r)).
Qed.

Lemma starts_with_length (p s : jsstring) :
  starts_with p s = true -> (List.length p <= List.length s)%nat.
Proof.
  revert s; induction p as [|a p IH]; intros [|b s]; simpl;
    try discriminate; try lia.
  rewrite andb_true_iff. intros [_ H]. apply IH in H. lia.
Qed.

Definition printable (p : jsstring) : bool :=
  forallb (fun x => (33 <=? x) && (x <? 160)) p.

Lemma starts_with_snoc (p s : jsstring) (c : N) :
  printable p = true -> p <> [] -> is_trim_space c = true ->
  starts_with p (s ++ [c]) = starts_with p s.
Proof.
  intros Hp Hne H. revert s Hne.
  induction p as [|a p IH]; intros s Hne; [congruence|].
  simpl in Hp. apply andb_true_iff in Hp as [Ha Hp].
  destruct s as [|b s]; simpl.
  - rewrite N.eqb_sym, (trim_space_eqb c a H); [reflexivity|].
    bool_to_prop. lia.
  - destruct p as [|a' p'].
    + reflexivity.
    + rewrite IH; [reflexivity|exact Hp|discriminate].
Qed.

Lemma lex_token_snoc (c a : N) (r : jsstring) :
  is_trim_space c = true ->
  lex_token ((a :: r) ++ [c]) = lex_token (a :: r).
Proof.
  intros H. unfold lex_token. simpl app; cbv beta iota.
  destruct (a =? 123); [reflexivity|].
  destruct (a =? 125); [reflexivity|].
  destruct (a =? 91); [reflexivity|].
  destruct (a =? 93); [reflexivity|].
  destruct (a =? 58); [reflexivity|].
  destruct (a =? 44); [reflexivity|].
  destruct (a =? 34); [now rewrite lex_string_snoc|].
  change (a :: r ++ [c]) with ((a :: r) ++ [c]).
  rewrite !starts_with_snoc by (reflexivity || discriminate || exact H).
  destruct (starts_with (js "true") (a :: r)); [reflexivity|].
  destruct (starts_with (js "false") (a :: r)); [reflexivity|].
  destruct (starts_with (js "null") (a :: r)); [reflexivity|].
  rewrite lex_number_snoc by exact H.
  destruct (lex_number (a :: r)) as [k|] eqn:E; [|reflexivity].
  apply lex_number_length in E. now rewrite firstn_snoc by lia.
Qed.

Lemma lex_token_length (s : jsstring) (t : token) (k : nat) :
  lex_token s = Some (t, k) -> (1 <= k <= List.length s)%nat.
Proof.
  unfold lex_token. destruct s as [|a r]; [discriminate|].
  assert (One : forall t0, Some (t0, 1%nat) = Some (t, k) ->
                (1 <= k <= List.length (a :: r))%nat).
  { intros t0 E; inversion E; simpl; lia. }
  destruct (a =? 123); [apply One|].
  destruct (a =? 125); [apply One|].
  destruct (a =? 91); [apply One|].
  destruct (a =? 93); [apply One|].
  destruct (a =? 58); [apply One|].
  destruct (a =? 44); [apply One|].
  destruct (a =? 34).
  { destruct (lex_string r) as [[str n]|] eqn:E; [|discriminate].
    apply lex_string_length in E. intros E'; inversion E'; subst.
    simpl; lia. }
  assert (Lit : forall p t0, starts_with p (a :: r) = true ->
                (1 <= List.length p)%nat ->
                Some (t0, List.length p) = Some (t, k) ->
                (1 <= k <= List.length (a :: r))%nat).
  { intros p t0 Hp Hl E. apply starts_with_length in Hp.
    inversion E; subst. lia. }
  destruct (starts_with (js "true") (a :: r)) eqn:Et.
  { apply (Lit _ _ Et). simpl; lia. }
  destruct (starts_with (js "false") (a :: r)) eqn:Ef.
  { apply (Lit _ _ Ef). simpl; lia. }
  destruct (starts_with (js "null") (a :: r)) eqn:En.
  { apply (Lit _ _ En). simpl; lia. }
  destruct (lex_number (a :: r)) as [n|] eqn:E; [|discriminate].
  apply lex_number_length in E. intros E'; inversion E'; subst. exact E.
Qed.

(** The tokens of a text followed by one white-space character. *)
Lemma tokens_go_snoc (c : N) (s : jsstring) (k : nat) :
  is_trim_space c = true -> (k <= List.length s)%nat ->
  tokens_go k (s ++ [c]) = if is_json_space c then tokens_go k s else None.
Proof.
  intros H. revert k. induction s as [|a r IH]; intros k Hk.
  - assert (k = O) by (simpl in Hk; lia). subst k. cbn [app tokens_go].
    destruct (is_json_space c); [reflexivity|].
    now rewrite (lex_token_trim_space c [] H).
  - simpl in Hk. destruct k as [|k]; simpl app.
    + cbn [tokens_go].
      destruct (is_json_space a); [apply IH; lia|].
      change (a :: r ++ [c]) with ((a :: r) ++ [c]).
      rewrite lex_token_snoc by exact H.
      destruct (lex_token (a :: r)) as [[t [|n]]|] eqn:E;
        try (destruct (is_json_space c); reflexivity).
      apply lex_token_length in E. simpl in E.
      rewrite IH by lia.
      destruct (is_json_space c); reflexivity.
    + cbn [tokens_go]. apply IH. lia.
Qed.

Lemma trimEnd_snoc (s : jsstring) (c : N) :
  trimEnd (s ++ [c]) = if is_trim_space c then trimEnd s else s ++ [c].
Proof.
  unfold trimEnd. rewrite rev_app_distr. simpl.
  destruct (is_trim_space c); [reflexivity|].
  simpl. now rewrite rev_involutive.
Qed.

Lemma tokenize_trimStart (s : jsstring) (ts : list token) :
  tokenize s = Some ts -> tokenize (trimStart s) = Some ts.
Proof.
  unfold tokenize. induction s as [|c r IH]; [auto|].
  simpl trimStart. destruct (is_trim_space c) eqn:E; [|auto].
  cbn [tokens_go]. destruct (is_json_space c); [exact IH|].
  now rewrite (lex_token_trim_space c r E).
Qed.

Lemma tokenize_trimEnd (s : jsstring) (ts : list token) :
  tokenize s = Some ts -> tokenize (trimEnd s) = Some ts.
Proof.
  unfold tokenize. induction s as [|c r IH] using rev_ind; [auto|].
  rewrite trimEnd_snoc. destruct (is_trim_space c) eqn:E; [|auto].
  rewrite tokens_go_snoc by (exact E || lia).
  destruct (is_json_space c); [exact IH | discriminate].
Qed.

(** [trim] does not change what a parseable text denotes. *)
Lemma JSON_parse_trim (text : jsstring) (v : json) :
  JSON_parse text = Some v -> JSON_parse (trim text) = Some v.
Proof.
  unfold JSON_parse, trim.
  destruct (tokenize text) as [ts|] eqn:E; [|discriminate].
  apply tokenize_trimStart, tokenize_trimEnd in E. now rewrite E.
Qed.

(** * The component: auxiliary facts *)

Lemma nth_error_snoc {A : Type} (l : list A) (x : A) :
  nth_error (l ++ [x]) (List.length l) = Some x.
Proof.
  rewrite nth_error_app2 by lia. now rewrite Nat.sub_diag.
Qed.

Lemma remove_at_snoc {A : Type} (l : list A) (x : A) :
  remove_at (List.length l) (l ++ [x]) = l.
Proof.
  induction l as [|a l IH]; simpl; [reflexivity|]. now rewrite IH.
Qed.

Lemma nth_error_update_at {A : Type} (g : A -> A) (l : list A) (i : nat) :
  nth_error (update_at i g l) i = option_map g (nth_error l i).
Proof.
  revert i; induction l as [|a l IH]; intros [|i]; simpl; auto.
Qed.

Lemma stop_closes (s : MediaStream) : stream_open (map stop s) = false.
Proof.
  unfold stream_open. induction s as [|t s IH]; simpl; auto.
Qed.

Lemma commit_streams (w : Home) : streams (commit w) = streams w.
Proof.
  unfold commit. destruct (showCamera w); [destruct (videoRef w)|]; reflexivity.
Qed.

Lemma commit_pending (w : Home) : pending (commit w) = pending w.
Proof.
  unfold commit. destruct (showCamera w); [destruct (videoRef w)|]; reflexivity.
Qed.

Lemma commit_console (w : Home) : console (commit w) = console w.
Proof.
  unfold commit. destruct (showCamera w); [destruct (videoRef w)|]; reflexivity.
Qed.

Lemma commit_file (w : Home) : file (commit w) = file w.
Proof.
  unfold commit. destruct (showCamera w); [destruct (videoRef w)|]; reflexivity.
Qed.

Lemma commit_preview (w : Home) : preview (commit w) = preview w.
Proof.
  unfold commit. destruct (showCamera w); [destruct (videoRef w)|]; reflexivity.
Qed.

Lemma commit_plantInfo (w : Home) : plantInfo (commit w) = plantInfo w.
Proof.
  unfold commit. destruct (showCamera w); [destruct (videoRef w)|]; reflexivity.
Qed.

Lemma commit_loading (w : Home) : loading (commit w) = loading w.
Proof.
  unfold commit. destruct (showCamera w); [destruct (videoRef w)|]; reflexivity.
Qed.

Lemma commit_showCamera (w : Home) : showCamera (commit w) = showCamera w.
Proof.
  unfold commit. destruct (showCamera w) eqn:E; [destruct (videoRef w)|];
    simpl; congruence.
Qed.

Lemma commit_videoRef_closed (w : Home) :
  showCamera w = false -> videoRef (commit w) = None.
Proof. unfold commit. now intros ->. Qed.

Ltac commit_fields :=
  rewrite ?commit_streams, ?commit_pending, ?commit_console, ?commit_file,
    ?commit_preview, ?commit_plantInfo, ?commit_loading, ?commit_showCamera.

(** The response handler stores a parsed value whole. *)
Lemma identifyPlant_response_parsed (w : Home) (text : jsstring) (v : json) :
  JSON_parse (cleanedResponse text) = Some v ->
  identifyPlant_response text w = setLoading false (setPlantInfo v w).
Proof. unfold identifyPlant_response. now intros ->. Qed.

(** ** Sample values *)

Definition leaf : File :=
  {| fname := "leaf.png"; ftype := "image/png"; fbytes := [137; 80; 78; 71] |}.

Definition leaf_url : jsstring := js "data:image/png;base64,iVBORw==".

(** A file chosen, previewed, and sent for identification. *)
Definition to_in_flight : list event :=
  [FileInputChange (Some [leaf]); ReadLoaded 0 leaf_url;
   ClickIdentify false; ReadLoaded 0 leaf_url].

Definition in_flight : Home :=
  {| file := Some leaf; preview := Some leaf_url; plantInfo := JNull;
     loading := true; showCamera := false; videoRef := None; streams := [];
     pending := [GenerateContent leaf leaf_url]; console := [] |}.

Lemma in_flight_reached : run to_in_flight initial = Some in_flight.
Proof. reflexivity. Qed.

(** The camera opened and granted one video track. *)
Definition to_camera : list event :=
  [ClickOpenCamera true; MediaGranted 0 ["video"%string]].

Definition camera_open : Home :=
  {| file := None; preview := None; plantInfo := JNull; loading := false;
     showCamera := true; videoRef := Some (mkVideo (Some O));
     streams := [[mkTrack "video" true]]; pending := []; console := [] |}.

Lemma camera_open_reached : run to_camera initial = Some camera_open.
Proof. reflexivity. Qed.

(** * The response of the service (section 4.2, steps 5 and 6) *)

(** C1, as the code has it: a response whose cleaned form [JSON.parse]
    rejects leaves no result ([plantInfo] is [null]), ends the request
    ([loading] is [false]) and logs the parse error. *)
Theorem identify_unparseable_response
    (w : Home) (i : nat) (f : File) (d text : jsstring) :
  nth_error (pending w) i = Some (GenerateContent f d) ->
  JSON_parse (cleanedResponse text) = None ->
  exists w',
    step (InferenceResolved i text) w = Some w' /\
    plantInfo w' = JNull /\
    loading w' = false /\
    console w' = console w ++ ["Error parsing plant info:"%string].
Proof.
  intros Hp Hj. eexists. split.
  - unfold step, handle. rewrite Hp. reflexivity.
  - commit_fields. unfold identifyPlant_response. rewrite Hj.
    repeat split.
Qed.

Lemma identify_unparseable_response_witness :
  exists w',
    step (InferenceResolved 0 (js "This looks like a rose.")) in_flight = Some w' /\
    plantInfo w' = JNull /\
    loading w' = false /\
    console w' = console in_flight ++ ["Error parsing plant info:"%string].
Proof.
  apply (identify_unparseable_response in_flight 0 leaf leaf_url);
    reflexivity.
Defined.

(** C1 as stated fails: a response that is valid JSON but lacks five of
    the six fields is stored as it is, a record with [name] only. *)
Lemma partial_record_is_kept :
  exists v w',
    JSON_parse (cleanedResponse (dq "{'name':'Rose'}")) = Some v /\
    is_PlantInfo v = false /\
    step (InferenceResolved 0 (dq "{'name':'Rose'}")) in_flight = Some w' /\
    plantInfo w' = v /\
    v <> JNull /\
    field (js "name") v = Some (JString (js "Rose")) /\
    field (js "uses") v = None /\
    console w' = [].
Proof.
  exists (JObject [(js "name", JString (js "Rose"))]).
  eexists. repeat split; try reflexivity. discriminate.
Qed.

(** C2 fails on the code: when the awaited [generateContent] call
    rejects, no handler runs.  [loading] stays [true], nothing is
    logged, nothing is left in progress that could end the request, and
    the identify button stays disabled. *)
Lemma rejected_inference_stays_loading :
  exists w',
    run (to_in_flight ++ [InferenceRejected 0]) initial = Some w' /\
    loading w' = true /\
    plantInfo w' = JNull /\
    console w' = [] /\
    pending w' = [] /\
    step (ClickIdentify false) w' = None.
Proof. eexists. repeat split. Qed.

(** In general a rejection changes nothing but the list of operations
    in progress. *)
Lemma rejected_inference_unhandled (w w' : Home) (i : nat) :
  step (InferenceRejected i) w = Some w' ->
  loading w' = loading w /\ plantInfo w' = plantInfo w /\
  console w' = console w.
Proof.
  unfold step, handle.
  destruct (nth_error (pending w) i) as [[]|]; try discriminate.
  intros E; inversion E; subst. commit_fields. repeat split.
Qed.

(** * Starting an identification (section 4.2, step 1) *)


(** The state after the response of [in_flight] was parsed. *)
Definition resolved : Home :=
  {| file := Some leaf; preview := Some leaf_url;
     plantInfo := JObject [(js "name", JString (js "Rose"))];
     loading := false; showCamera := false; videoRef := None; streams := [];
     pending := []; console := [] |}.



(** * Acquiring an image (section 4.1) *)

Definition notes : File :=
  {| fname := "notes.txt"; ftype := "text/plain"; fbytes := [] |}.

(** A file chosen and previewed. *)
Definition previewed : Home :=
  {| file := Some leaf; preview := Some leaf_url; plantInfo := JNull;
     loading := false; showCamera := false; videoRef := None; streams := [];
     pending := []; console := [] |}.

Lemma previewed_reached :
  run [FileInputChange (Some [leaf]); ReadLoaded 0 leaf_url] initial
  = Some previewed.
Proof. reflexivity. Qed.

(** C6, as the code has it: [handleFileChange] only looks whether a
    first file is there.  Without one the state is left as it was and
    nothing is signalled; with one, whatever its size and media type,
    it becomes the current file and its read, once loaded, gives the
    preview. *)
Theorem handleFileChange_replaces_or_keeps
    (w : Home) (files : option (list File)) :
  (files = None \/ files = Some [] -> handleFileChange files w = w) /\
  (forall f rest, files = Some (f :: rest) ->
     exists w1,
       step (FileInputChange files) w = Some w1 /\
       file w1 = Some f /\
       preview w1 = preview w /\
       console w1 = console w /\
       pending w1 = pending w ++ [PreviewRead f] /\
       forall result, exists w2,
         step (ReadLoaded (List.length (pending w)) result) w1 = Some w2 /\
         file w2 = Some f /\
         preview w2 = Some result /\
         pending w2 = pending w).
Proof.
  split.
  - intros [-> | ->]; reflexivity.
  - intros f rest ->. eexists. split; [reflexivity|].
    commit_fields. repeat split.
    intros result. eexists. split.
    + unfold step, handle. commit_fields. simpl pending.
      rewrite nth_error_snoc. reflexivity.
    + commit_fields. simpl. commit_fields. simpl.
      rewrite remove_at_snoc. repeat split.
Qed.

Lemma handleFileChange_replaces_or_keeps_witness :
  handleFileChange None previewed = previewed /\
  exists w1,
    step (FileInputChange (Some [leaf])) initial = Some w1 /\
    file w1 = Some leaf /\
    preview w1 = preview initial /\
    console w1 = console initial /\
    pending w1 = pending initial ++ [PreviewRead leaf] /\
    forall result, exists w2,
      step (ReadLoaded (List.length (pending initial)) result) w1 = Some w2 /\
      file w2 = Some leaf /\
      preview w2 = Some result /\
      pending w2 = pending initial.
Proof.
  split.
  - apply (proj1 (handleFileChange_replaces_or_keeps previewed None)).
    left; reflexivity.
  - apply (proj2 (handleFileChange_replaces_or_keeps initial (Some [leaf]))
             leaf []).
    reflexivity.
Defined.

(** C6 as stated fails: an empty file of media type [text/plain]
    replaces the current image, and nothing is signalled. *)
Lemma picker_accepts_empty_text_file :
  exists w',
    step (FileInputChange (Some [notes])) previewed = Some w' /\
    fbytes notes = [] /\
    ftype notes = "text/plain"%string /\
    file previewed = Some leaf /\
    file w' = Some notes /\
    console w' = [].
Proof. eexists. repeat split. Qed.

(** C7: when [getUserMedia] rejects (access denied, or no capture
    device), the error is logged to the console and no stream is
    opened or attached: the open sessions and the element's
    [srcObject] are those from before the call. *)
Theorem startCamera_rejected_opens_nothing (w : Home) :
  exists w1 w2,
    step (ClickOpenCamera true) w = Some w1 /\
    step (MediaRejected (List.length (pending w))) w1 = Some w2 /\
    console w2 = console w ++ ["Error accessing the camera"%string] /\
    streams w2 = streams w /\
    open_sessions w2 = open_sessions w /\
    pending w2 = pending w /\
    (open_sessions w = O -> open_sessions w2 = O) /\
    match videoRef w2 with
    | Some v => srcObject v =
                match videoRef w with Some v0 => srcObject v0 | None => None end
    | None => False
    end.
Proof.
  eexists. eexists. split; [reflexivity|]. split.
  - unfold step, handle. commit_fields. simpl pending.
    rewrite nth_error_snoc. reflexivity.
  - unfold open_sessions. commit_fields. simpl.
    commit_fields. simpl. rewrite remove_at_snoc.
    repeat split; auto.
    destruct (videoRef w) eqn:E; unfold commit; simpl;
      repeat (rewrite E; simpl); reflexivity.
Qed.

(** Where [navigator.mediaDevices] is missing, [startCamera] only shows
    the camera panel. *)
Lemma startCamera_without_mediaDevices (w : Home) :
  startCamera false w = setShowCamera true w.
Proof. reflexivity. Qed.

(** C10: the file built from a captured frame is named
    [captured_image.jpg] with media type [image/jpeg] whatever the blob,
    carries the blob's bytes, and goes through [handleImageSelection]
    exactly as a picked file does. *)
Theorem captured_file_is_jpeg (w : Home) (i : nat) (b : Blob) :
  nth_error (pending w) i = Some ToBlob ->
  let captured :=
    {| fname := "captured_image.jpg"; ftype := "image/jpeg";
       fbytes := bbytes b |} in
  exists w',
    step (BlobReady i (Some b)) w = Some w' /\
    file w' = Some captured /\
    file w' = file (handleFileChange (Some [captured]) (finish i w)) /\
    pending w' = pending (handleFileChange (Some [captured]) (finish i w)) /\
    pending w' = remove_at i (pending w) ++ [PreviewRead captured] /\
    preview w' = preview (handleFileChange (Some [captured]) (finish i w)).
Proof.
  intros Hp captured. eexists. split.
  - unfold step, handle. rewrite Hp. reflexivity.
  - commit_fields. unfold captureImage_callback, stopCameraStream.
    simpl videoRef.
    destruct (videoRef w) as [[[s|]]|]; repeat split.
Qed.

Lemma captured_file_is_jpeg_witness :
  let captured :=
    {| fname := "captured_image.jpg"; ftype := "image/jpeg";
       fbytes := [255; 216; 255] |} in
  exists w',
    step (BlobReady 0 (Some (mkBlob "image/png" [255; 216; 255])))
         (start ToBlob camera_open) = Some w' /\
    file w' = Some captured /\
    file w' = file (handleFileChange (Some [captured])
                      (finish 0 (start ToBlob camera_open))) /\
    pending w' = pending (handleFileChange (Some [captured])
                            (finish 0 (start ToBlob camera_open))) /\
    pending w' = remove_at 0 (pending (start ToBlob camera_open))
                 ++ [PreviewRead captured] /\
    preview w' = preview (handleFileChange (Some [captured])
                            (finish 0 (start ToBlob camera_open))).
Proof.
  apply (captured_file_is_jpeg (start ToBlob camera_open) 0
           (mkBlob "image/png" [255; 216; 255])).
  reflexivity.
Defined.

(** C3, as the code has it: when the snapshot yields a blob, every
    track of the stream attached to the video element is stopped and
    the camera panel is closed; when it yields none, or when the canvas
    gives no 2D context, nothing changes: panel and session stay open. *)
Theorem capture_releases_when_blob
    (w : Home) (i stream : nat) (tracks : MediaStream) (b : Blob) :
  nth_error (pending w) i = Some ToBlob ->
  videoRef w = Some (mkVideo (Some stream)) ->
  nth_error (streams w) stream = Some tracks ->
  (exists w',
     step (BlobReady i (Some b)) w = Some w' /\
     nth_error (streams w') stream = Some (map stop tracks) /\
     stream_open (map stop tracks) = false /\
     showCamera w' = false /\
     videoRef w' = None) /\
  (exists w',
     step (BlobReady i None) w = Some w' /\
     streams w' = streams w /\
     showCamera w' = showCamera w /\
     file w' = file w) /\
  captureImage false w = w.
Proof.
  intros Hp Hv Hs. split; [|split].
  - eexists. split.
    + unfold step, handle. rewrite Hp. reflexivity.
    + rewrite commit_streams, commit_showCamera.
      unfold captureImage_callback, stopCameraStream. simpl videoRef.
      rewrite Hv. simpl streams.
      rewrite nth_error_update_at, Hs. repeat split.
      apply stop_closes.
  - eexists. split.
    + unfold step, handle. rewrite Hp. reflexivity.
    + commit_fields. repeat split.
  - unfold captureImage. now rewrite Hv.
Qed.

Lemma capture_releases_when_blob_witness :
  (exists w',
     step (BlobReady 0 (Some (mkBlob "image/jpeg" [255; 216])))
          (start ToBlob camera_open) = Some w' /\
     nth_error (streams w') 0 = Some (map stop [mkTrack "video" true]) /\
     stream_open (map stop [mkTrack "video" true]) = false /\
     showCamera w' = false /\
     videoRef w' = None) /\
  (exists w',
     step (BlobReady 0 None) (start ToBlob camera_open) = Some w' /\
     streams w' = streams (start ToBlob camera_open) /\
     showCamera w' = showCamera (start ToBlob camera_open) /\
     file w' = file (start ToBlob camera_open)) /\
  captureImage false (start ToBlob camera_open) = start ToBlob camera_open.
Proof.
  apply (capture_releases_when_blob (start ToBlob camera_open) 0 0
           [mkTrack "video" true] (mkBlob "image/jpeg" [255; 216]));
    reflexivity.
Defined.

(** C3 as stated fails: a capture whose snapshot yields no blob leaves
    the session open, its track live and the camera panel shown. *)
Lemma capture_without_blob_keeps_session :
  exists w',
    run (to_camera ++ [ClickCapture true; BlobReady 0 None]) initial = Some w' /\
    open_sessions w' = 1%nat /\
    streams w' = [[mkTrack "video" true]] /\
    showCamera w' = true /\
    videoRef w' = Some (mkVideo (Some O)) /\
    console w' = [].
Proof. eexists. repeat split. Qed.

(** * Cleaning the response (section 4.2, step 5) *)



(** The example of section 8. *)
Definition rose_body : jsstring :=
  dq "{'name':'Rose','scientificName':'Rosa','family':'Rosaceae','origin':'Asia','characteristics':'Thorny shrub','uses':'Ornamental'}".

Definition rose : json :=
  JObject [(js "name", JString (js "Rose"));
           (js "scientificName", JString (js "Rosa"));
           (js "family", JString (js "Rosaceae"));
           (js "origin", JString (js "Asia"));
           (js "characteristics", JString (js "Thorny shrub"));
           (js "uses", JString (js "Ornamental"))].

(** The text the service sends when it wraps [body] in a fence. *)
Definition fenced (body : jsstring) : jsstring :=
  fence_json ++ LF :: body ++ LF :: fence.






(** * One session, one image (section 4.1, invariant) *)

Definition is_GetUserMedia (t : task) : bool :=
  match t with GetUserMedia => true | _ => false end.

(** The [getUserMedia] calls not yet answered. *)
Definition media_requests (w : Home) : nat :=
  List.length (filter is_GetUserMedia (pending w)).

Definition artifacts (w : Home) : list File :=
  match file w with Some f => [f] | None => [] end.

(** The states reached when the camera is opened only while no session
    is open and none is being requested. *)
Inductive careful : Home -> Prop :=
| careful_initial : careful initial
| careful_step (e : event) (w w' : Home) :
    careful w ->
    (forall md, e = ClickOpenCamera md ->
                open_sessions w = O /\ media_requests w = O) ->
    step e w = Some w' ->
    careful w'.

Lemma filter_remove_at_le {A : Type} (p : A -> bool) (i : nat) (l : list A) :
  (List.length (filter p (remove_at i l)) <= List.length (filter p l))%nat.
Proof.
  revert i; induction l as [|a l IH]; intros i; simpl; [destruct i; simpl; lia|].
  destruct i as [|i]; simpl.
  - destruct (p a); simpl; lia.
  - specialize (IH i). destruct (p a); simpl; lia.
Qed.

Lemma filter_remove_at_hit {A : Type} (p : A -> bool) (i : nat) (l : list A) (x : A) :
  nth_error l i = Some x -> p x = true ->
  S (List.length (filter p (remove_at i l))) = List.length (filter p l).
Proof.
  revert i; induction l as [|a l IH]; intros [|i]; simpl; try discriminate.
  - intros E Hx. inversion E; subst. now rewrite Hx.
  - intros E Hx. specialize (IH i E Hx). destruct (p a); simpl; lia.
Qed.

Lemma filter_stop_le (i : nat) (l : list MediaStream) :
  (List.length (filter stream_open (update_at i (map stop) l))
   <= List.length (filter stream_open l))%nat.
Proof.
  revert i; induction l as [|s l IH]; intros [|i]; simpl; try lia.
  - rewrite stop_closes. destruct (stream_open s); simpl; lia.
  - specialize (IH i). destruct (stream_open s); simpl; lia.
Qed.

Lemma filter_snoc_length {A : Type} (p : A -> bool) (l : list A) (x : A) :
  List.length (filter p (l ++ [x]))
  = (List.length (filter p l) + if p x then 1 else 0)%nat.
Proof.
  rewrite filter_app, length_app. simpl. destruct (p x); reflexivity.
Qed.

Lemma commit_open_sessions (w : Home) : open_sessions (commit w) = open_sessions w.
Proof. unfold open_sessions. now rewrite commit_streams. Qed.

Lemma commit_media_requests (w : Home) :
  media_requests (commit w) = media_requests w.
Proof. unfold media_requests. now rewrite commit_pending. Qed.

Lemma stopCameraStream_sessions (w : Home) :
  (open_sessions (stopCameraStream w) <= open_sessions w)%nat /\
  pending (stopCameraStream w) = pending w.
Proof.
  unfold stopCameraStream, open_sessions.
  destruct (videoRef w) as [[[s|]]|]; simpl; auto using filter_stop_le.
Qed.

(** Every handler but [startCamera] keeps the number of open or
    requested sessions from growing. *)
Lemma handle_sessions (e : event) (w w' : Home) :
  (forall md, e <> ClickOpenCamera md) ->
  handle e w = Some w' ->
  (open_sessions w' + media_requests w' <= open_sessions w + media_requests w)%nat.
Proof.
  intros Hne. destruct e; simpl.
  - intros E; inversion E; subst; clear E.
    destruct files as [[|f r]|]; simpl; try lia.
    unfold open_sessions, media_requests; simpl.
    rewrite filter_snoc_length; simpl. lia.
  - now destruct (Hne mediaDevices).
  - destruct (showCamera w); [|discriminate].
    intros E; inversion E; subst; clear E.
    unfold captureImage. destruct (videoRef w); [|lia].
    destruct context2d; [|lia].
    unfold open_sessions, media_requests; simpl.
    rewrite filter_snoc_length; simpl. lia.
  - destruct (is_some (preview w) && negb (loading w)); [|discriminate].
    intros E; inversion E; subst; clear E.
    unfold identifyPlant. destruct (file w); [|lia].
    destruct throws; [reflexivity|].
    unfold open_sessions, media_requests; simpl.
    rewrite filter_snoc_length; simpl. lia.
  - destruct (nth_error (pending w) i) as [[]|] eqn:Hp; try discriminate;
      intros E; inversion E; subst; clear E;
      unfold open_sessions, media_requests; simpl;
      rewrite ?filter_snoc_length; simpl;
      pose proof (filter_remove_at_le is_GetUserMedia i (pending w)); lia.
  - destruct (nth_error (pending w) i) as [[]|] eqn:Hp; try discriminate;
      intros E; inversion E; subst; clear E;
      unfold open_sessions, media_requests; simpl;
      pose proof (filter_remove_at_le is_GetUserMedia i (pending w)); lia.
  - destruct (nth_error (pending w) i) as [[]|] eqn:Hp; try discriminate.
    intros E; inversion E; subst; clear E.
    pose proof (filter_remove_at_hit is_GetUserMedia i (pending w) _ Hp eq_refl).
    unfold startCamera_granted, open_sessions, media_requests in *.
    simpl videoRef.
    destruct (videoRef w); simpl; rewrite filter_snoc_length;
      destruct (stream_open _); lia.
  - destruct (nth_error (pending w) i) as [[]|] eqn:Hp; try discriminate.
    intros E; inversion E; subst; clear E.
    unfold open_sessions, media_requests; simpl.
    pose proof (filter_remove_at_le is_GetUserMedia i (pending w)); lia.
  - destruct (nth_error (pending w) i) as [[]|] eqn:Hp; try discriminate.
    intros E; inversion E; subst; clear E.
    unfold identifyPlant_response, open_sessions, media_requests.
    destruct (JSON_parse _); simpl;
      pose proof (filter_remove_at_le is_GetUserMedia i (pending w)); lia.
  - destruct (nth_error (pending w) i) as [[]|] eqn:Hp; try discriminate.
    intros E; inversion E; subst; clear E.
    unfold open_sessions, media_requests; simpl.
    pose proof (filter_remove_at_le is_GetUserMedia i (pending w)); lia.
  - destruct (nth_error (pending w) i) as [[]|] eqn:Hp; try discriminate.
    intros E; inversion E; subst; clear E.
    pose proof (filter_remove_at_le is_GetUserMedia i (pending w)) as L.
    destruct blob as [b|]; simpl.
    + match goal with |- context [stopCameraStream ?x] =>
        destruct (stopCameraStream_sessions x) as [S1 S2];
        unfold media_requests at 1; rewrite S2;
        revert S1; generalize (open_sessions (stopCameraStream x))
      end.
      unfold open_sessions, media_requests; simpl.
      rewrite filter_snoc_length; simpl. intros n Hn. lia.
    + unfold open_sessions, media_requests; simpl. lia.
Qed.

(** C8, as the code has it: as long as the camera is opened only while
    no session is open or being requested, at most one session is open
    at any time (an unanswered request counting as one); and there is
    never more than one current file. *)
Theorem one_session_when_opened_once (w : Home) :
  careful w ->
  (open_sessions w + media_requests w <= 1)%nat /\
  (List.length (artifacts w) <= 1)%nat.
Proof.
  intros H. split.
  - induction H as [|e w w' Hw IH Hguard Hstep]; [cbv; lia|].
    unfold step in Hstep.
    destruct (handle e w) as [h|] eqn:Hh; [|discriminate].
    inversion Hstep; subst; clear Hstep.
    rewrite commit_open_sessions, commit_media_requests.
    destruct e; try (apply handle_sessions in Hh; [lia|discriminate]).
    destruct (Hguard mediaDevices eq_refl) as [Ho Hm].
    simpl in Hh. inversion Hh; subst; clear Hh.
    unfold open_sessions, media_requests in *.
    unfold startCamera. destruct mediaDevices; simpl.
    + rewrite filter_snoc_length; simpl. lia.
    + lia.
  - unfold artifacts. destruct (file w); simpl; lia.
Qed.

Lemma camera_open_careful : careful camera_open.
Proof.
  apply (careful_step (MediaGranted 0 ["video"%string])
           (commit (startCamera true initial))).
  - apply (careful_step (ClickOpenCamera true) initial).
    + exact careful_initial.
    + intros md _. split; reflexivity.
    + reflexivity.
  - intros md E. discriminate E.
  - reflexivity.
Defined.

Lemma one_session_when_opened_once_witness :
  (open_sessions camera_open + media_requests camera_open <= 1)%nat /\
  (List.length (artifacts camera_open) <= 1)%nat.
Proof.
  apply (one_session_when_opened_once camera_open).
  exact camera_open_careful.
Defined.

(** C8 as stated fails: opening the camera a second time hands out a
    second stream; both are live, and the video element refers to the
    second only. *)
Lemma two_sessions_open :
  exists w',
    run (to_camera ++ to_camera) initial = Some w' /\
    open_sessions w' = 2%nat /\
    streams w' = [[mkTrack "video" true]; [mkTrack "video" true]] /\
    videoRef w' = Some (mkVideo (Some 1%nat)).
Proof. eexists. repeat split. Qed.

(** * Further properties of the handlers *)

(** ** Identification requests in progress *)

Inductive reachable : Home -> Prop :=
| reachable_initial : reachable initial
| reachable_step (e : event) (w w' : Home) :
    reachable w -> step e w = Some w' -> reachable w'.

Lemma reachable_run (es : list event) (w w' : Home) :
  reachable w -> run es w = Some w' -> reachable w'.
Proof.
  revert w. induction es as [|e es IH]; intros w Hw; simpl.
  - intros E; inversion E; subst; exact Hw.
  - destruct (step e w) as [w1|] eqn:E1; [|discriminate].
    apply IH. exact (reachable_step e w w1 Hw E1).
Qed.

Definition is_identification (t : task) : bool :=
  match t with
  | IdentifyRead _ | GenerateContent _ _ => true
  | _ => false
  end.

(** The reads and calls started by [identifyPlant] and not yet ended. *)
Definition identifications (w : Home) : nat :=
  List.length (filter is_identification (pending w)).

Lemma commit_identifications (w : Home) :
  identifications (commit w) = identifications w.
Proof. unfold identifications. now rewrite commit_pending. Qed.

Lemma stopCameraStream_frame (w : Home) :
  pending (stopCameraStream w) = pending w /\
  loading (stopCameraStream w) = loading w /\
  plantInfo (stopCameraStream w) = plantInfo w /\
  file (stopCameraStream w) = file w /\
  preview (stopCameraStream w) = preview w /\
  console (stopCameraStream w) = console w /\
  videoRef (stopCameraStream w) = videoRef w /\
  showCamera (stopCameraStream w) = showCamera w.
Proof.
  unfold stopCameraStream.
  destruct (videoRef w) as [[[s|]]|] eqn:E; simpl; rewrite ?E; repeat split.
Qed.

Definition one_in_flight (w : Home) : Prop :=
  (identifications w <= 1)%nat /\
  ((1 <= identifications w)%nat -> loading w = true).

Lemma handle_one_in_flight (e : event) (w w' : Home) :
  one_in_flight w -> handle e w = Some w' -> one_in_flight w'.
Proof.
  unfold one_in_flight. intros [H1 H2]. destruct e; simpl.
  - intros E; inversion E; subst; clear E.
    destruct files as [[|f r]|]; simpl; auto.
    unfold identifications; simpl. rewrite filter_snoc_length; simpl.
    rewrite Nat.add_0_r. auto.
  - intros E; inversion E; subst; clear E.
    unfold startCamera, identifications.
    destruct mediaDevices; simpl; auto.
    rewrite filter_snoc_length; simpl. rewrite Nat.add_0_r. auto.
  - destruct (showCamera w); [|discriminate].
    intros E; inversion E; subst; clear E.
    unfold captureImage, identifications.
    destruct (videoRef w); auto. destruct context2d; auto.
    simpl. rewrite filter_snoc_length; simpl. rewrite Nat.add_0_r. auto.
  - destruct (is_some (preview w)); [|discriminate].
    destruct (loading w) eqn:L; [discriminate|]. simpl.
    intros E; inversion E; subst; clear E.
    assert (Z0 : identifications w = O).
    { destruct (identifications w); [reflexivity|].
      assert (false = true) by (apply H2; lia). discriminate. }
    unfold identifyPlant. destruct (file w).
    + destruct throws; unfold identifications in *; simpl;
        rewrite ?filter_snoc_length, Z0; simpl; (split; [lia|]);
        intros; (reflexivity || lia).
    + rewrite Z0. split; [lia|]. intros; lia.
  - destruct (nth_error (pending w) i) as [[]|] eqn:Hp; try discriminate;
      intros E; inversion E; subst; clear E; unfold identifications in *; simpl.
    + pose proof (filter_remove_at_le is_identification i (pending w)).
      split; [lia|]. intros; apply H2; lia.
    + pose proof (filter_remove_at_hit is_identification i (pending w) _ Hp
                    eq_refl).
      rewrite filter_snoc_length. simpl.
      split; [lia|]. intros; apply H2; lia.
  - destruct (nth_error (pending w) i) as [[]|] eqn:Hp; try discriminate;
      intros E; inversion E; subst; clear E; unfold identifications in *; simpl;
      pose proof (filter_remove_at_le is_identification i (pending w));
      (split; [lia|]; intros; apply H2; lia).
  - destruct (nth_error (pending w) i) as [[]|] eqn:Hp; try discriminate.
    intros E; inversion E; subst; clear E.
    pose proof (filter_remove_at_le is_identification i (pending w)).
    unfold startCamera_granted, identifications in *. simpl videoRef.
    destruct (videoRef w); simpl; (split; [lia|]; intros; apply H2; lia).
  - destruct (nth_error (pending w) i) as [[]|] eqn:Hp; try discriminate.
    intros E; inversion E; subst; clear E.
    pose proof (filter_remove_at_le is_identification i (pending w)).
    unfold identifications in *; simpl.
    split; [lia|]. intros; apply H2; lia.
  - destruct (nth_error (pending w) i) as [[]|] eqn:Hp; try discriminate.
    intros E; inversion E; subst; clear E.
    pose proof (filter_remove_at_hit is_identification i (pending w) _ Hp
                  eq_refl).
    unfold identifyPlant_response, identifications in *.
    destruct (JSON_parse _); simpl; (split; [lia|]; intros; lia).
  - destruct (nth_error (pending w) i) as [[]|] eqn:Hp; try discriminate.
    intros E; inversion E; subst; clear E.
    pose proof (filter_remove_at_hit is_identification i (pending w) _ Hp
                  eq_refl).
    unfold identifications in *; simpl. split; [lia|]. intros; lia.
  - destruct (nth_error (pending w) i) as [[]|] eqn:Hp; try discriminate.
    intros E; inversion E; subst; clear E.
    pose proof (filter_remove_at_le is_identification i (pending w)).
    destruct blob as [b|]; simpl.
    + match goal with |- context [stopCameraStream ?x] =>
        destruct (stopCameraStream_frame x) as (S1 & S2 & _)
      end.
      unfold identifications in *. rewrite S1, S2. simpl.
      rewrite filter_snoc_length. simpl.
      split; [lia|]. intros; apply H2; lia.
    + unfold identifications in *; simpl.
      split; [lia|]. intros; apply H2; lia.
Qed.

Lemma reachable_one_in_flight (w : Home) : reachable w -> one_in_flight w.
Proof.
  intros H. induction H as [|e w w' Hw IH Hstep].
  - split; [cbv; lia|]. cbv. lia.
  - unfold step in Hstep.
    destruct (handle e w) as [h|] eqn:Hh; [|discriminate].
    inversion Hstep; subst; clear Hstep.
    destruct (handle_one_in_flight e w h IH Hh) as [A B].
    split; rewrite ?commit_identifications, ?commit_loading; assumption.
Qed.

(** X1: in every reachable state at most one identification is in progress,
    and while one is, [loading] is set: the disabled button keeps
    requests from overlapping. *)
Theorem one_identification_in_flight (w : Home) :
  reachable w ->
  (identifications w <= 1)%nat /\
  ((1 <= identifications w)%nat -> loading w = true).
Proof. exact (reachable_one_in_flight w). Qed.

Lemma in_flight_reachable : reachable in_flight.
Proof.
  apply (reachable_run to_in_flight initial).
  - exact reachable_initial.
  - reflexivity.
Defined.

Lemma one_identification_in_flight_witness :
  (identifications in_flight <= 1)%nat /\
  ((1 <= identifications in_flight)%nat -> loading in_flight = true).
Proof.
  apply (one_identification_in_flight in_flight).
  exact in_flight_reachable.
Defined.

(** A request that has lost its read or its call: [loading] is set and
    no identification is in progress. *)
Definition stuck (w : Home) : Prop :=
  loading w = true /\ identifications w = O.

Lemma nth_error_filter_pos {A : Type} (p : A -> bool) (l : list A) (i : nat) (x : A) :
  nth_error l i = Some x -> p x = true ->
  (1 <= List.length (filter p l))%nat.
Proof.
  intros H Hx. pose proof (filter_remove_at_hit p i l x H Hx). lia.
Qed.

Lemma handle_stuck (e : event) (w w' : Home) :
  stuck w -> handle e w = Some w' -> stuck w'.
Proof.
  unfold stuck, identifications. intros [L Z]. destruct e; simpl.
  - intros E; inversion E; subst; clear E.
    destruct files as [[|f r]|]; simpl; auto.
    rewrite filter_snoc_length; simpl. rewrite Nat.add_0_r. auto.
  - intros E; inversion E; subst; clear E.
    unfold startCamera. destruct mediaDevices; simpl; auto.
    rewrite filter_snoc_length; simpl. rewrite Nat.add_0_r. auto.
  - destruct (showCamera w); [|discriminate].
    intros E; inversion E; subst; clear E.
    unfold captureImage. destruct (videoRef w); auto.
    destruct context2d; auto.
    simpl. rewrite filter_snoc_length; simpl. rewrite Nat.add_0_r. auto.
  - rewrite L, andb_false_r. discriminate.
  - destruct (nth_error (pending w) i) as [[]|] eqn:Hp; try discriminate;
      intros E; inversion E; subst; clear E; simpl.
    + pose proof (filter_remove_at_le is_identification i (pending w)).
      split; [exact L|lia].
    + pose proof (nth_error_filter_pos is_identification _ _ _ Hp eq_refl). lia.
  - destruct (nth_error (pending w) i) as [[]|] eqn:Hp; try discriminate;
      intros E; inversion E; subst; clear E; simpl;
      pose proof (filter_remove_at_le is_identification i (pending w));
      (split; [exact L|lia]).
  - destruct (nth_error (pending w) i) as [[]|] eqn:Hp; try discriminate.
    intros E; inversion E; subst; clear E.
    pose proof (filter_remove_at_le is_identification i (pending w)).
    unfold startCamera_granted. simpl videoRef.
    destruct (videoRef w); simpl; (split; [exact L|lia]).
  - destruct (nth_error (pending w) i) as [[]|] eqn:Hp; try discriminate.
    intros E; inversion E; subst; clear E.
    pose proof (filter_remove_at_le is_identification i (pending w)).
    simpl. split; [exact L|lia].
  - destruct (nth_error (pending w) i) as [[]|] eqn:Hp; try discriminate.
    pose proof (nth_error_filter_pos is_identification _ _ _ Hp eq_refl). lia.
  - destruct (nth_error (pending w) i) as [[]|] eqn:Hp; try discriminate.
    pose proof (nth_error_filter_pos is_identification _ _ _ Hp eq_refl). lia.
  - destruct (nth_error (pending w) i) as [[]|] eqn:Hp; try discriminate.
    intros E; inversion E; subst; clear E.
    pose proof (filter_remove_at_le is_identification i (pending w)).
    destruct blob as [b|]; simpl.
    + match goal with |- context [stopCameraStream ?x] =>
        destruct (stopCameraStream_frame x) as (S1 & S2 & _)
      end.
      rewrite S1, S2. simpl. rewrite filter_snoc_length. simpl.
      split; [exact L|lia].
    + split; [exact L|lia].
Qed.

(** X2: once [loading] is set with no identification in progress, it stays
    set whatever happens next, and the identify button never works
    again: the page has no way out of that state. *)
Theorem stuck_forever (es : list event) (w w' : Home) :
  loading w = true ->
  identifications w = O ->
  run es w = Some w' ->
  loading w' = true /\
  identifications w' = O /\
  forall throws, step (ClickIdentify throws) w' = None.
Proof.
  intros L Z R.
  assert (S : stuck w') .
  { assert (S0 : stuck w) by (split; assumption). clear L Z.
    revert w S0 R. induction es as [|e es IH]; intros w S0; simpl.
    - intros E; inversion E; subst; exact S0.
    - unfold step. destruct (handle e w) as [h|] eqn:Hh; [|discriminate].
      simpl. apply IH.
      destruct (handle_stuck e w h S0 Hh) as [A B].
      split; rewrite ?commit_loading, ?commit_identifications; assumption. }
  destruct S as [L' Z']. repeat split; auto.
  intros throws. unfold step, handle. rewrite L'.
  now rewrite andb_false_r.
Qed.

(** The state after the call of [in_flight] was rejected. *)
Definition abandoned : Home :=
  {| file := Some leaf; preview := Some leaf_url; plantInfo := JNull;
     loading := true; showCamera := false; videoRef := None; streams := [];
     pending := []; console := [] |}.

Lemma stuck_forever_witness :
  exists w',
    run [FileInputChange (Some [notes]); ReadLoaded 0 leaf_url;
         ClickOpenCamera true; MediaRejected 0] abandoned = Some w' /\
    loading w' = true /\
    identifications w' = O /\
    forall throws, step (ClickIdentify throws) w' = None.
Proof.
  eexists. split; [reflexivity|].
  apply (stuck_forever
           [FileInputChange (Some [notes]); ReadLoaded 0 leaf_url;
            ClickOpenCamera true; MediaRejected 0] abandoned);
    reflexivity.
Defined.

(** X3: in a reachable state, a failed read of the file to identify or a
    rejected call leads there: [loading] stays set, no identification
    is left in progress, and nothing is logged. *)
Theorem failed_identification_sticks (w w' : Home) (i : nat) (e : event) :
  reachable w ->
  e = ReadFailed i \/ e = InferenceRejected i ->
  (exists t, nth_error (pending w) i = Some t /\ is_identification t = true) ->
  step e w = Some w' ->
  loading w' = true /\
  identifications w' = O /\
  plantInfo w' = plantInfo w /\
  console w' = console w.
Proof.
  intros Hr He (t & Hp & Ht) Hs.
  destruct (reachable_one_in_flight w Hr) as [H1 H2].
  pose proof (filter_remove_at_hit is_identification i (pending w) t Hp Ht) as Hh.
  fold (identifications w) in Hh.
  assert (Hw : w' = commit (finish i w)).
  { unfold step, handle in Hs.
    destruct He as [-> | ->]; rewrite Hp in Hs;
      destruct t; try discriminate Ht; try discriminate Hs;
      simpl in Hs; now inversion Hs. }
  subst w'. rewrite commit_identifications. commit_fields.
  unfold identifications in *. simpl in *.
  repeat split; [apply H2|]; lia.
Qed.

Lemma failed_identification_sticks_witness :
  exists w',
    step (InferenceRejected 0) in_flight = Some w' /\
    loading w' = true /\
    identifications w' = O /\
    plantInfo w' = plantInfo in_flight /\
    console w' = console in_flight.
Proof.
  eexists. split; [reflexivity|].
  apply (failed_identification_sticks in_flight _ 0 (InferenceRejected 0)).
  - exact in_flight_reachable.
  - right; reflexivity.
  - exists (GenerateContent leaf leaf_url). split; reflexivity.
  - reflexivity.
Defined.

(** ** Reads that overlap *)

Lemma nth_error_snoc2_fst {A : Type} (l : list A) (x y : A) :
  nth_error ((l ++ [x]) ++ [y]) (List.length l) = Some x.
Proof.
  rewrite nth_error_app1 by (rewrite length_app; simpl; lia).
  apply nth_error_snoc.
Qed.

Lemma nth_error_snoc2_snd {A : Type} (l : list A) (x y : A) :
  nth_error ((l ++ [x]) ++ [y]) (S (List.length l)) = Some y.
Proof.
  replace (S (List.length l)) with (List.length (l ++ [x]))
    by (rewrite length_app; simpl; lia).
  apply nth_error_snoc.
Qed.

Lemma remove_at_snoc2_fst {A : Type} (l : list A) (x y : A) :
  remove_at (List.length l) ((l ++ [x]) ++ [y]) = l ++ [y].
Proof.
  induction l as [|a l IH]; simpl; [reflexivity|]. now rewrite IH.
Qed.

Lemma remove_at_snoc2_snd {A : Type} (l : list A) (x y : A) :
  remove_at (S (List.length l)) ((l ++ [x]) ++ [y]) = l ++ [x].
Proof.
  replace (S (List.length l)) with (List.length (l ++ [x]))
    by (rewrite length_app; simpl; lia).
  apply remove_at_snoc.
Qed.

Lemma step_ReadLoaded_preview (w : Home) (i : nat) (f : File) (r : jsstring) :
  nth_error (pending w) i = Some (PreviewRead f) ->
  step (ReadLoaded i r) w = Some (commit (setPreview (Some r) (finish i w))).
Proof. intros H. unfold step, handle. now rewrite H. Qed.

Lemma step_ReadLoaded_identify (w : Home) (i : nat) (f : File) (r : jsstring) :
  nth_error (pending w) i = Some (IdentifyRead f) ->
  step (ReadLoaded i r) w
  = Some (commit (identifyPlant_onload f r (finish i w))).
Proof. intros H. unfold step, handle. now rewrite H. Qed.

Lemma step_FileInputChange (w : Home) (f : File) (rest : list File) :
  step (FileInputChange (Some (f :: rest))) w
  = Some (commit (handleImageSelection f w)).
Proof. reflexivity. Qed.

Lemma pending_commit_selection (w : Home) (f : File) :
  pending (commit (handleImageSelection f w)) = pending w ++ [PreviewRead f].
Proof. now rewrite commit_pending. Qed.

(** X4: when two files are chosen one after the other and the read of the
    second loads before the read of the first, the page ends with the
    second file and the preview of the first: the preview is that of
    the read that loads last. *)
Theorem preview_of_last_loaded_read
    (w : Home) (f1 f2 : File) (r1 r2 : jsstring) :
  exists w',
    run [FileInputChange (Some [f1]); FileInputChange (Some [f2]);
         ReadLoaded (S (List.length (pending w))) r2;
         ReadLoaded (List.length (pending w)) r1] w = Some w' /\
    file w' = Some f2 /\
    preview w' = Some r1 /\
    pending w' = pending w.
Proof.
  set (w1 := commit (handleImageSelection f1 w)).
  set (w2 := commit (handleImageSelection f2 w1)).
  set (w3 := commit (setPreview (Some r2) (finish (S (List.length (pending w))) w2))).
  assert (P2 : pending w2 = (pending w ++ [PreviewRead f1]) ++ [PreviewRead f2]).
  { unfold w2, w1. now rewrite !pending_commit_selection. }
  assert (P3 : pending w3 = pending w ++ [PreviewRead f1]).
  { unfold w3. rewrite commit_pending. simpl. rewrite P2.
    apply remove_at_snoc2_snd. }
  exists (commit (setPreview (Some r1) (finish (List.length (pending w)) w3))).
  split.
  - cbn [run]. rewrite step_FileInputChange. fold w1.
    rewrite step_FileInputChange. fold w2.
    rewrite (step_ReadLoaded_preview w2 _ f2)
      by (rewrite P2; apply nth_error_snoc2_snd).
    fold w3.
    rewrite (step_ReadLoaded_preview w3 _ f1)
      by (rewrite P3; apply nth_error_snoc).
    reflexivity.
  - commit_fields. simpl. rewrite P3, remove_at_snoc.
    unfold w3. commit_fields. simpl. unfold w2. commit_fields. simpl.
    repeat split.
Qed.

(** X5: the request is made for the file that was current when the button
    was clicked: a file chosen while that file is being read replaces
    the current file, not the one sent. *)
Theorem identify_sends_file_of_click
    (w : Home) (f g : File) (p r : jsstring) :
  file w = Some f ->
  preview w = Some p ->
  loading w = false ->
  exists w',
    run [ClickIdentify false; FileInputChange (Some [g]);
         ReadLoaded (List.length (pending w)) r] w = Some w' /\
    file w' = Some g /\
    pending w' = pending w ++ [PreviewRead g; GenerateContent f r] /\
    loading w' = true.
Proof.
  intros Hf Hp Hl.
  set (w1 := commit (start (IdentifyRead f) (setLoading true w))).
  set (w2 := commit (handleImageSelection g w1)).
  assert (S1 : step (ClickIdentify false) w = Some w1).
  { unfold step, handle, identifyPlant. now rewrite Hp, Hl, Hf. }
  assert (P2 : pending w2 = (pending w ++ [IdentifyRead f]) ++ [PreviewRead g]).
  { unfold w2. rewrite pending_commit_selection. unfold w1.
    now rewrite commit_pending. }
  exists (commit (identifyPlant_onload f r (finish (List.length (pending w)) w2))).
  split.
  - cbn [run]. rewrite S1, step_FileInputChange. fold w2.
    rewrite (step_ReadLoaded_identify w2 _ f)
      by (rewrite P2; apply nth_error_snoc2_fst).
    reflexivity.
  - commit_fields. simpl. rewrite P2, remove_at_snoc2_fst, <- app_assoc.
    unfold w2. commit_fields. simpl. unfold w1. commit_fields. simpl.
    repeat split.
Qed.

Lemma identify_sends_file_of_click_witness :
  exists w',
    run [ClickIdentify false; FileInputChange (Some [notes]);
         ReadLoaded (List.length (pending previewed)) leaf_url] previewed
    = Some w' /\
    file w' = Some notes /\
    pending w' = pending previewed
                 ++ [PreviewRead notes; GenerateContent leaf leaf_url] /\
    loading w' = true.
Proof.
  apply (identify_sends_file_of_click previewed leaf notes leaf_url leaf_url);
    reflexivity.
Defined.

(** ** Streams the video element does not refer to *)

(** [srcObject] of the video element is the stream numbered [s]. *)
Definition attached (w : Home) (s : nat) : bool :=
  match videoRef w with
  | Some (mkVideo (Some s')) => Nat.eqb s' s
  | _ => false
  end.

Lemma nth_error_update_at_ne {A : Type} (g : A -> A) (l : list A) (i j : nat) :
  i <> j -> nth_error (update_at i g l) j = nth_error l j.
Proof.
  revert i j; induction l as [|a l IH]; intros [|i] [|j] H; simpl; auto;
    congruence.
Qed.

Lemma commit_attached (w : Home) (s : nat) :
  attached w s = false -> attached (commit w) s = false.
Proof.
  unfold attached, commit. destruct (showCamera w); [|reflexivity].
  destruct (videoRef w) eqn:E; simpl; [now rewrite E | reflexivity].
Qed.

Lemma stopCameraStream_unattached (w : Home) (s : nat) :
  attached w s = false ->
  nth_error (streams (stopCameraStream w)) s = nth_error (streams w) s /\
  attached (stopCameraStream w) s = false.
Proof.
  unfold attached, stopCameraStream.
  destruct (videoRef w) as [[[s'|]]|] eqn:E; simpl; rewrite ?E; auto.
  intros H. split; [|exact H].
  apply nth_error_update_at_ne. apply Nat.eqb_neq. exact H.
Qed.

Lemma handle_unattached (e : event) (w w' : Home) (s : nat) (tracks : MediaStream) :
  nth_error (streams w) s = Some tracks ->
  attached w s = false ->
  handle e w = Some w' ->
  nth_error (streams w') s = Some tracks /\ attached w' s = false.
Proof.
  intros Hs Ha.
  assert (Frame : forall h, streams h = streams w -> videoRef h = videoRef w ->
            nth_error (streams h) s = Some tracks /\ attached h s = false).
  { intros h E1 E2. unfold attached in *. now rewrite E1, E2. }
  destruct e; simpl.
  - intros E; inversion E; subst; clear E.
    destruct files as [[|f r]|]; apply Frame; reflexivity.
  - intros E; inversion E; subst; clear E.
    destruct mediaDevices; apply Frame; reflexivity.
  - destruct (showCamera w); [|discriminate].
    intros E; inversion E; subst; clear E.
    unfold captureImage. destruct (videoRef w) eqn:V; [|now apply Frame].
    destruct context2d; apply Frame; simpl; auto.
  - destruct (is_some (preview w) && negb (loading w)); [|discriminate].
    intros E; inversion E; subst; clear E.
    unfold identifyPlant. destruct (file w); [|now apply Frame].
    destruct throws; apply Frame; reflexivity.
  - destruct (nth_error (pending w) i) as [[]|]; try discriminate;
      intros E; inversion E; subst; clear E; apply Frame; reflexivity.
  - destruct (nth_error (pending w) i) as [[]|]; try discriminate;
      intros E; inversion E; subst; clear E; apply Frame; reflexivity.
  - destruct (nth_error (pending w) i) as [[]|]; try discriminate.
    intros E; inversion E; subst; clear E.
    assert (Hlt : (s < List.length (streams w))%nat).
    { apply nth_error_Some. congruence. }
    unfold startCamera_granted, attached. simpl videoRef.
    destruct (videoRef w) eqn:V; simpl.
    + rewrite nth_error_app1 by exact Hlt. split; [exact Hs|].
      apply Nat.eqb_neq. lia.
    + rewrite nth_error_app1 by exact Hlt. rewrite V. auto.
  - destruct (nth_error (pending w) i) as [[]|]; try discriminate.
    intros E; inversion E; subst; clear E. apply Frame; reflexivity.
  - destruct (nth_error (pending w) i) as [[]|]; try discriminate.
    intros E; inversion E; subst; clear E.
    unfold identifyPlant_response.
    destruct (JSON_parse _); apply Frame; reflexivity.
  - destruct (nth_error (pending w) i) as [[]|]; try discriminate.
    intros E; inversion E; subst; clear E. apply Frame; reflexivity.
  - destruct (nth_error (pending w) i) as [[]|]; try discriminate.
    intros E; inversion E; subst; clear E.
    destruct blob as [b|]; [|apply Frame; reflexivity].
    simpl.
    match goal with |- context [stopCameraStream ?x] =>
      destruct (Frame x eq_refl eq_refl) as [F1 F2];
      destruct (stopCameraStream_unattached x s F2) as [U1 U2]
    end.
    rewrite U1. split; [exact F1 | exact U2].
Qed.

Lemma run_unattached
    (es : list event) (w w' : Home) (s : nat) (tracks : MediaStream) :
  nth_error (streams w) s = Some tracks ->
  attached w s = false ->
  run es w = Some w' ->
  nth_error (streams w') s = Some tracks /\ attached w' s = false.
Proof.
  revert w. induction es as [|e es IH]; intros w Hs Ha; simpl.
  - intros E; inversion E; subst. auto.
  - unfold step. destruct (handle e w) as [h|] eqn:Hh; [|discriminate].
    simpl. destruct (handle_unattached e w h s tracks Hs Ha Hh) as [A B].
    apply IH; [now rewrite commit_streams | now apply commit_attached].
Qed.

(** X6: a stream that is not the [srcObject] of the video element is never
    touched again: whatever happens next, its tracks are as they were
    and the element never comes to refer to it.  An open stream that
    has lost its reference stays open. *)
Theorem unattached_stream_never_changes
    (es : list event) (w w' : Home) (s : nat) (tracks : MediaStream) :
  nth_error (streams w) s = Some tracks ->
  attached w s = false ->
  run es w = Some w' ->
  nth_error (streams w') s = Some tracks /\ attached w' s = false.
Proof. exact (run_unattached es w w' s tracks). Qed.

(** The camera opened twice: the element refers to the second stream. *)
Definition opened_twice : Home :=
  {| file := None; preview := None; plantInfo := JNull; loading := false;
     showCamera := true; videoRef := Some (mkVideo (Some 1%nat));
     streams := [[mkTrack "video" true]; [mkTrack "video" true]];
     pending := []; console := [] |}.

Lemma unattached_stream_never_changes_witness :
  exists w',
    run [ClickCapture true; BlobReady 0 (Some (mkBlob "image/jpeg" [255]))]
        opened_twice = Some w' /\
    nth_error (streams w') 0 = Some [mkTrack "video" true] /\
    attached w' 0 = false.
Proof.
  eexists. split; [reflexivity|].
  apply (unattached_stream_never_changes
           [ClickCapture true; BlobReady 0 (Some (mkBlob "image/jpeg" [255]))]
           opened_twice);
    reflexivity.
Defined.

Lemma map_stop_idempotent (s : MediaStream) : map stop (map stop s) = map stop s.
Proof. rewrite map_map. reflexivity. Qed.

Lemma update_at_twice {A : Type} (g : A -> A) (l : list A) (i : nat) :
  (forall x, g (g x) = g x) ->
  update_at i g (update_at i g l) = update_at i g l.
Proof.
  intros Hg. revert i; induction l as [|a l IH]; intros [|i]; simpl; auto.
  - now rewrite Hg.
  - now rewrite IH.
Qed.

(** X7: [stopCameraStream] stops every track of the attached stream and of
    no other; calling it again changes nothing, and it never opens a
    session. *)
Theorem stopCameraStream_idempotent (w : Home) :
  stopCameraStream (stopCameraStream w) = stopCameraStream w /\
  (open_sessions (stopCameraStream w) <= open_sessions w)%nat /\
  (forall s, attached w s = true ->
     nth_error (streams (stopCameraStream w)) s
     = option_map (map stop) (nth_error (streams w) s)) /\
  (forall s, attached w s = false ->
     nth_error (streams (stopCameraStream w)) s = nth_error (streams w) s).
Proof.
  split; [|split; [|split]].
  - unfold stopCameraStream.
    destruct (videoRef w) as [[[s|]]|] eqn:E; simpl; rewrite ?E; auto.
    unfold with_streams. simpl.
    now rewrite (update_at_twice _ _ _ map_stop_idempotent).
  - apply stopCameraStream_sessions.
  - intros s. unfold attached, stopCameraStream.
    destruct (videoRef w) as [[[s'|]]|]; try discriminate.
    intros H. apply Nat.eqb_eq in H. subst s'. simpl.
    apply nth_error_update_at.
  - intros s H. apply stopCameraStream_unattached. exact H.
Qed.

Lemma stopCameraStream_idempotent_witness :
  nth_error (streams (stopCameraStream opened_twice)) 1
  = option_map (map stop) (nth_error (streams opened_twice) 1) /\
  nth_error (streams (stopCameraStream opened_twice)) 0
  = nth_error (streams opened_twice) 0.
Proof.
  destruct (stopCameraStream_idempotent opened_twice) as (_ & _ & A & B).
  split; [apply A | apply B]; reflexivity.
Defined.

(** ** Responses with and without fences *)

Definition all_space (s : jsstring) : bool := forallb is_trim_space s.

Lemma trimStart_app_space (w s : jsstring) :
  all_space w = true -> trimStart (w ++ s) = trimStart s.
Proof.
  induction w as [|c w IH]; simpl; [reflexivity|].
  rewrite andb_true_iff. intros [-> H]. auto.
Qed.

Lemma trimEnd_app_space (s w : jsstring) :
  all_space w = true -> trimEnd (s ++ w) = trimEnd s.
Proof.
  induction w as [|c w IH] using rev_ind; intros H.
  - now rewrite app_nil_r.
  - unfold all_space in H. rewrite forallb_app in H. simpl in H.
    rewrite andb_true_r in H. apply andb_true_iff in H as [Hw Hc].
    rewrite app_assoc, trimEnd_snoc, Hc. auto.
Qed.

Lemma trim_padded (w1 s w2 : jsstring) :
  all_space w1 = true -> all_space w2 = true ->
  trim (w1 ++ s ++ w2) = trim s.
Proof.
  intros H1 H2. unfold trim. rewrite trimStart_app_space by exact H1.
  induction s as [|c r IH]; simpl.
  - pose proof (trimStart_app_space w2 [] H2) as E.
    rewrite app_nil_r in E. rewrite E. reflexivity.
  - destruct (is_trim_space c); [exact IH|].
    change (c :: r ++ w2) with ((c :: r) ++ w2).
    now apply trimEnd_app_space.
Qed.

Lemma all_space_no_backtick (w : jsstring) :
  all_space w = true -> no_backtick w = true.
Proof.
  induction w as [|c w IH]; simpl; [reflexivity|].
  rewrite !andb_true_iff. intros [Hc Hw]. split; [|auto].
  apply negb_true_iff. apply (trim_space_eqb c backtick Hc).
  unfold backtick; lia.
Qed.

Lemma has_fence_head (s : jsstring) :
  has_fence s = false -> starts_with fence s = false.
Proof.
  destruct s as [|c r]; [reflexivity|]. simpl.
  intros H. now apply orb_false_iff in H as [H _].
Qed.

(** A text without [```] is left as it is. *)
Lemma replace_no_fence (s : jsstring) :
  has_fence s = false -> replace_fences s = s.
Proof.
  induction s as [|c r IH]; intros H; [reflexivity|].
  pose proof (has_fence_head _ H) as Hh.
  simpl in H. apply orb_false_iff in H as [_ Hr].
  rewrite replace_nomatch.
  - f_equal. auto.
  - apply match_fence_none; [exact Hh|].
    rewrite (has_fence_head r Hr). apply andb_false_r.
Qed.

Lemma starts_with_fence_no_backtick (w : jsstring) (p : jsstring) :
  no_backtick w = true -> starts_with (backtick :: p) w = false.
Proof.
  destruct w as [|c w]; [reflexivity|]. simpl.
  rewrite andb_true_iff, negb_true_iff. intros [H _].
  now rewrite N.eqb_sym, H.
Qed.

Lemma starts_with_cons (a b : N) (p s : jsstring) :
  starts_with (a :: p) (b :: s) = (a =? b) && starts_with p s.
Proof. reflexivity. Qed.

Lemma starts_with_fence_app (t w : jsstring) :
  no_backtick w = true ->
  starts_with fence (t ++ w) = starts_with fence t.
Proof.
  intros H. unfold fence.
  destruct t as [|a [|b [|c t]]]; simpl app.
  - now rewrite starts_with_fence_no_backtick.
  - rewrite !starts_with_cons.
    now rewrite starts_with_fence_no_backtick by exact H.
  - rewrite !starts_with_cons.
    now rewrite starts_with_fence_no_backtick by exact H.
  - reflexivity.
Qed.

Lemma has_fence_app_l (w s : jsstring) :
  no_backtick w = true -> has_fence (w ++ s) = has_fence s.
Proof.
  induction w as [|c w IH]; [reflexivity|]. simpl.
  rewrite andb_true_iff, negb_true_iff. intros [Hc Hw].
  rewrite (N.eqb_sym backtick c), Hc. simpl. auto.
Qed.

Lemma has_fence_app_r (s w : jsstring) :
  no_backtick w = true -> has_fence (s ++ w) = has_fence s.
Proof.
  intros H. induction s as [|c r IH].
  - pose proof (has_fence_app_l w [] H) as E.
    now rewrite app_nil_r in E.
  - change ((c :: r) ++ w) with (c :: (r ++ w)).
    cbn [has_fence]. rewrite IH.
    change (c :: r ++ w) with ((c :: r) ++ w).
    now rewrite starts_with_fence_app.
Qed.

(** X9: a response that is plain JSON without fences, with any white space
    that [trim] knows around it (a byte-order mark or a no-break space
    included), is stored as the value it denotes. *)
Theorem identify_plain_response
    (w : Home) (i : nat) (f : File) (d w1 body w2 : jsstring) (v : json) :
  nth_error (pending w) i = Some (GenerateContent f d) ->
  all_space w1 = true ->
  all_space w2 = true ->
  has_fence body = false ->
  JSON_parse body = Some v ->
  exists w',
    step (InferenceResolved i (w1 ++ body ++ w2)) w = Some w' /\
    plantInfo w' = v /\
    loading w' = false /\
    console w' = console w.
Proof.
  intros Hp H1 H2 Hf Hj. eexists. split.
  - unfold step, handle. rewrite Hp. reflexivity.
  - commit_fields. rewrite (identifyPlant_response_parsed _ _ v).
    + repeat split.
    + unfold cleanedResponse. rewrite replace_no_fence.
      * rewrite trim_padded by assumption. now apply JSON_parse_trim.
      * rewrite has_fence_app_l by now apply all_space_no_backtick.
        rewrite has_fence_app_r by now apply all_space_no_backtick.
        exact Hf.
Qed.

Lemma identify_plain_response_witness :
  exists w',
    step (InferenceResolved 0 ([65279; 10] ++ rose_body ++ [160; 10]))
         in_flight = Some w' /\
    plantInfo w' = rose /\
    loading w' = false /\
    console w' = console in_flight.
Proof.
  apply (identify_plain_response in_flight 0 leaf leaf_url
           [65279; 10] rose_body [160; 10] rose);
    reflexivity.
Defined.

(** X10: a response wrapped in a fence without the [json] tag, a line
    feed after the opening and before the closing [```], around a JSON
    text free of [```], is stored as the value the text denotes. *)
Theorem identify_untagged_fence
    (w : Home) (i : nat) (f : File) (d body : jsstring) (v : json) :
  nth_error (pending w) i = Some (GenerateContent f d) ->
  has_fence body = false ->
  JSON_parse body = Some v ->
  exists w',
    step (InferenceResolved i (fence ++ LF :: body ++ LF :: fence)) w
    = Some w' /\
    plantInfo w' = v /\
    loading w' = false /\
    console w' = console w.
Proof.
  intros Hp Hf Hj. eexists. split.
  - unfold step, handle. rewrite Hp. reflexivity.
  - commit_fields. rewrite (identifyPlant_response_parsed _ _ v).
    + repeat split.
    + unfold cleanedResponse. rewrite replace_fence.
      change (after_fence (LF :: body ++ LF :: fence))
        with ((LF :: body) ++ LF :: fence).
      rewrite replace_body by exact Hf.
      change (trim (LF :: body)) with (trim body).
      now apply JSON_parse_trim.
Qed.

Lemma identify_untagged_fence_witness :
  exists w',
    step (InferenceResolved 0 (fence ++ LF :: rose_body ++ LF :: fence))
         in_flight = Some w' /\
    plantInfo w' = rose /\
    loading w' = false /\
    console w' = console in_flight.
Proof.
  apply (identify_untagged_fence in_flight 0 leaf leaf_url rose_body rose);
    reflexivity.
Defined.

Lemma trimEnd_prefix_kept (p s : jsstring) :
  trimEnd p = p -> exists s', trimEnd (p ++ s) = p ++ s'.
Proof.
  intros H. induction s as [|a s IH] using rev_ind.
  - exists []. rewrite !app_nil_r. exact H.
  - rewrite app_assoc, trimEnd_snoc.
    destruct (is_trim_space a); [exact IH|].
    exists (s ++ [a]). now rewrite app_assoc.
Qed.

(** X11: when a line feed stands before the opening fence, the second
    alternative of the pattern takes the line feed with the three
    backticks and leaves the tag: the cleaned text starts with [json],
    the parse fails and there is no result, whatever the body. *)
Theorem line_feed_before_fence_fails
    (w : Home) (i : nat) (f : File) (d body : jsstring) :
  nth_error (pending w) i = Some (GenerateContent f d) ->
  exists w',
    step (InferenceResolved i (LF :: fenced body)) w = Some w' /\
    starts_with (js "json") (cleanedResponse (LF :: fenced body)) = true /\
    plantInfo w' = JNull /\
    loading w' = false /\
    console w' = console w ++ ["Error parsing plant info:"%string].
Proof.
  intros Hp.
  assert (C : exists s',
            cleanedResponse (LF :: fenced body) = js "json" ++ s').
  { unfold cleanedResponse, fenced, fence_json.
    rewrite <- app_assoc. rewrite replace_LF_fence.
    rewrite (replace_prefix (js "json")) by reflexivity.
    unfold trim.
    change (trimStart (js "json" ++ replace_fences (LF :: body ++ LF :: fence)))
      with (js "json" ++ replace_fences (LF :: body ++ LF :: fence)).
    apply trimEnd_prefix_kept. reflexivity. }
  destruct C as [s' C].
  assert (J : JSON_parse (cleanedResponse (LF :: fenced body)) = None).
  { rewrite C. unfold JSON_parse, tokenize.
    change (js "json" ++ s') with (106 :: ([115; 111; 110] ++ s')).
    cbn [tokens_go].
    change (is_json_space 106) with false. cbv iota.
    destruct (lex_token (106 :: [115; 111; 110] ++ s')) as [[t k]|] eqn:E;
      [|reflexivity].
    apply lex_token_start in E. discriminate E. }
  eexists. split; [|split].
  - unfold step, handle. rewrite Hp. reflexivity.
  - rewrite C. reflexivity.
  - commit_fields. unfold identifyPlant_response. rewrite J. repeat split.
Qed.

Lemma line_feed_before_fence_fails_witness :
  exists w',
    step (InferenceResolved 0 (LF :: fenced rose_body)) in_flight = Some w' /\
    starts_with (js "json") (cleanedResponse (LF :: fenced rose_body)) = true /\
    plantInfo w' = JNull /\
    loading w' = false /\
    console w' = console in_flight ++ ["Error parsing plant info:"%string].
Proof.
  apply (line_feed_before_fence_fails in_flight 0 leaf leaf_url rose_body).
  reflexivity.
Defined.

(** X8: a grant that arrives when the video element is gone (the panel was
    closed by a capture in the meantime) creates a stream of live
    tracks that the element never refers to: nothing that happens
    afterwards stops it. *)
Theorem late_grant_is_never_released
    (w w1 w' : Home) (i : nat) (kinds : list string) (es : list event) :
  nth_error (pending w) i = Some GetUserMedia ->
  videoRef w = None ->
  kinds <> [] ->
  step (MediaGranted i kinds) w = Some w1 ->
  run es w1 = Some w' ->
  exists tracks,
    nth_error (streams w') (List.length (streams w)) = Some tracks /\
    stream_open tracks = true /\
    attached w' (List.length (streams w)) = false.
Proof.
  intros Hp Hv Hk Hs Hr.
  exists (map (fun k => mkTrack k true) kinds).
  assert (E : w1 = commit (startCamera_granted kinds (finish i w))).
  { unfold step, handle in Hs. rewrite Hp in Hs. now inversion Hs. }
  assert (O : stream_open (map (fun k => mkTrack k true) kinds) = true).
  { destruct kinds; [congruence | reflexivity]. }
  destruct (run_unattached es w1 w' (List.length (streams w))
              (map (fun k => mkTrack k true) kinds)) as [A B]; auto.
  - subst w1. rewrite commit_streams. unfold startCamera_granted.
    simpl videoRef. rewrite Hv. simpl. apply nth_error_snoc.
  - subst w1. apply commit_attached. unfold startCamera_granted, attached.
    simpl videoRef. rewrite Hv. simpl. now rewrite Hv.
Qed.

(** A second request still pending when a capture closes the panel. *)
Definition closed_with_request : Home :=
  {| file := Some (mkFile "captured_image.jpg" "image/jpeg" [255]);
     preview := None; plantInfo := JNull; loading := false;
     showCamera := false; videoRef := None;
     streams := [[mkTrack "video" false]];
     pending := [GetUserMedia;
                 PreviewRead (mkFile "captured_image.jpg" "image/jpeg" [255])];
     console := [] |}.

Lemma closed_with_request_reached :
  run [ClickOpenCamera true; MediaGranted 0 ["video"%string];
       ClickOpenCamera true; ClickCapture true;
       BlobReady 1 (Some (mkBlob "image/jpeg" [255]))] initial
  = Some closed_with_request.
Proof. reflexivity. Qed.

Lemma late_grant_is_never_released_witness :
  exists w1 w' tracks,
    step (MediaGranted 0 ["video"%string]) closed_with_request = Some w1 /\
    run [ClickOpenCamera false; ClickCapture true] w1 = Some w' /\
    nth_error (streams w') (List.length (streams closed_with_request))
    = Some tracks /\
    stream_open tracks = true /\
    attached w' (List.length (streams closed_with_request)) = false.
Proof.
  eexists. eexists.
  destruct (late_grant_is_never_released closed_with_request _ _ 0
              ["video"%string] [ClickOpenCamera false; ClickCapture true]
              eq_refl eq_refl ltac:(discriminate) eq_refl eq_refl)
    as (tracks & A & B & C).
  exists tracks. repeat split; assumption.
Defined.

(** ** What keeps the result *)

(** X12: only a response that arrives, or a failure inside the [try] block
    of [identifyPlant], changes [plantInfo]: choosing or capturing
    another image, opening the camera and starting a new
    identification all leave the previous result on the page. *)
Theorem result_kept_until_next_response (e : event) (w w' : Home) :
  step e w = Some w' ->
  (forall i text, e <> InferenceResolved i text) ->
  e <> ClickIdentify true ->
  plantInfo w' = plantInfo w.
Proof.
  intros Hs H1 H2. unfold step in Hs.
  destruct (handle e w) as [h|] eqn:Hh; [|discriminate].
  inversion Hs; subst; clear Hs. rewrite commit_plantInfo.
  destruct e; simpl in Hh.
  - inversion Hh; subst. destruct files as [[|f r]|]; reflexivity.
  - inversion Hh; subst. destruct mediaDevices; reflexivity.
  - destruct (showCamera w); [|discriminate]. inversion Hh; subst.
    unfold captureImage. destruct (videoRef w); [|reflexivity].
    destruct context2d; reflexivity.
  - destruct (is_some (preview w) && negb (loading w)); [|discriminate].
    inversion Hh; subst. destruct throws; [congruence|].
    unfold identifyPlant. destruct (file w); reflexivity.
  - destruct (nth_error (pending w) i) as [[]|]; try discriminate;
      inversion Hh; subst; reflexivity.
  - destruct (nth_error (pending w) i) as [[]|]; try discriminate;
      inversion Hh; subst; reflexivity.
  - destruct (nth_error (pending w) i) as [[]|]; try discriminate.
    inversion Hh; subst. unfold startCamera_granted. simpl videoRef.
    destruct (videoRef w); reflexivity.
  - destruct (nth_error (pending w) i) as [[]|]; try discriminate.
    inversion Hh; subst; reflexivity.
  - now destruct (H1 i responseText).
  - destruct (nth_error (pending w) i) as [[]|]; try discriminate.
    inversion Hh; subst; reflexivity.
  - destruct (nth_error (pending w) i) as [[]|]; try discriminate.
    inversion Hh; subst. destruct blob as [b|]; [|reflexivity].
    simpl.
    match goal with |- context [stopCameraStream ?x] =>
      destruct (stopCameraStream_frame x) as (_ & _ & S3 & _)
    end.
    rewrite S3. reflexivity.
Qed.

Lemma result_kept_until_next_response_witness :
  exists w',
    step (FileInputChange (Some [notes])) resolved = Some w' /\
    plantInfo w' = plantInfo resolved /\
    file w' = Some notes.
Proof.
  eexists. split; [reflexivity|]. split; [|reflexivity].
  apply (result_kept_until_next_response (FileInputChange (Some [notes]))
           resolved).
  - reflexivity.
  - intros i text. discriminate.
  - discriminate.
Defined.

(** ** The image sent

    [inlineData: { mimeType: file.type, data: base64Image.split(",")[1] }] *)

Definition comma : N := 44.

(** [s.split(",")] *)
Fixpoint split_comma (s : jsstring) : list jsstring :=
  match s with
  | [] => [[]]
  | c :: r =>
      if c =? comma then [] :: split_comma r
      else
        match split_comma r with
        | piece :: pieces => (c :: piece) :: pieces
        | [] => [[c]]
        end
  end.

Record InlineData : Type := mkInlineData {
  mimeType : string;
  data : option jsstring
}.

Definition inlineData (f : File) (base64Image : jsstring) : InlineData :=
  {| mimeType := ftype f; data := nth_error (split_comma base64Image) 1 |}.

Definition no_comma (s : jsstring) : bool :=
  forallb (fun c => negb (c =? comma)) s.

Lemma split_comma_no_comma (s : jsstring) :
  no_comma s = true -> split_comma s = [s].
Proof.
  induction s as [|c r IH]; simpl; [reflexivity|].
  rewrite andb_true_iff, negb_true_iff. intros [-> H].
  now rewrite IH.
Qed.

Lemma split_comma_app (h r : jsstring) :
  no_comma h = true -> split_comma (h ++ comma :: r) = h :: split_comma r.
Proof.
  induction h as [|c h IH]; simpl.
  - intros _. reflexivity.
  - rewrite andb_true_iff, negb_true_iff. intros [-> H].
    now rewrite IH.
Qed.

(** X13: the data sent is the text between the first and the second comma
    of the data URL: the whole payload when the URL has one comma, a
    part of the header when the media type itself holds a comma, and
    nothing ([undefined]) when there is no comma at all. *)
Theorem inlineData_between_commas
    (f : File) (header payload : jsstring) :
  no_comma header = true ->
  no_comma payload = true ->
  inlineData f (header ++ comma :: payload)
  = {| mimeType := ftype f; data := Some payload |} /\
  (forall rest,
     inlineData f (header ++ comma :: payload ++ comma :: rest)
     = {| mimeType := ftype f; data := Some payload |}) /\
  inlineData f header = {| mimeType := ftype f; data := None |}.
Proof.
  intros Hh Hp. unfold inlineData. repeat split.
  - now rewrite split_comma_app, split_comma_no_comma.
  - intros rest. now rewrite split_comma_app, split_comma_app.
  - now rewrite split_comma_no_comma.
Qed.

Lemma inlineData_between_commas_witness :
  inlineData leaf leaf_url
  = {| mimeType := "image/png"; data := Some (js "iVBORw==") |}.
Proof.
  exact (proj1 (inlineData_between_commas leaf (js "data:image/png;base64")
                  (js "iVBORw==") eq_refl eq_refl)).
Defined.
